(** * MDNSClient (daemon/mdns_client.cpp): discovery client life cycle,
      resolve handler and the list of pending RTSP describe tasks.

    The development follows the C++ source function by function.  The
    object's members and the part of the outside world the functions act
    on (the shared states of the tasks started with [std::async], and the
    sequence of observable actions) are gathered in one record, and every
    member function is a computation in a small state monad over it.

    Observable actions, kept in program order in [trace]: calls into the
    Avahi library, calls of [std::future] members, the RTSP describe
    request and the host callbacks made by a task, log lines, and stores
    to the [running_] flag.

    Concurrency is abstracted as follows.  A task started by [std::async]
    lives in the table [tasks] and is either in flight or completed; the
    environment completes a task with [complete], which performs the
    task's body, so the actions of a task enter the trace when it
    completes.  A member function runs as one uninterrupted step (the
    list is only touched under [sources_res_mutex_]); a blocking
    [future::wait] on a task in flight is the completion of that task.
    A future erased from the list is either invalid or refers to a
    completed task, so its destructor has nothing to wait for and is not
    represented.

    The conditional compilation on [_USE_AVAHI_] is the boolean argument
    [USE_AVAHI] of [init], [process_results] and [terminate]. *)

From Stdlib Require Import ZArith NArith Lia Ascii.
From stdpp Require Import base list strings pretty.

Local Open Scope string_scope.
Local Open Scope list_scope.

(** ** Handles and plain data *)

Definition AvahiThreadedPoll := nat.
Definition AvahiClient := nat.
Definition AvahiServiceBrowser := nat.
Definition AvahiServiceResolver := nat.

Inductive AvahiResolverEvent := AVAHI_RESOLVER_FOUND | AVAHI_RESOLVER_FAILURE.

(** [boost::system::error_code], by its value; [!ec] holds when it is 0. *)
Definition error_code := Z.
Definition ec_failed (ec : error_code) : bool := negb (ec =? 0)%Z.

(** The closure handed to [std::async] at lines 86-89: four strings
    captured by value. *)
Record AsyncTask := {
  name_ : string;
  domain_ : string;
  addr_ : string;
  port_ : string
}.

Inductive task_state := InFlight | Completed.

(** A [std::future<void>]: it refers to a shared state (a slot of the task
    table) or to none, in which case [valid()] is false. *)
Record future := Future { shared_state : option nat }.

Definition valid (f : future) : bool :=
  match shared_state f with Some _ => true | None => false end.

Inductive future_status := ready | timeout | deferred.

Inductive severity := debug | info | error | fatal.

(** One constructor per log statement of the modelled functions, with
    the values it prints (the text of [avahi_strerror] is left out). *)
Inductive LogMsg :=
| ResolverFailed (name type domain : string)
| ResolverService (name type domain : string)
| ResolverInfo (host_name : string) (port : N) (addr : string) (flags : Z)
| PollCreateFailed
| ClientCreateFailed (err : Z)
| WaitingFor (n : nat).

(** [std::to_string] on the [uint16_t] port: its decimal digits. *)
Definition to_string (port : N) : string := pretty port.

Section MDNSClient.

(** The description returned by the RTSP client (rtsp_client.hpp). *)
Context {RtspSource : Type}.

(** [RTSPClient::describe(path, address, port)]: the collaborator called
    at line 90, returning success and the description. *)
Variable describe : string → string → string → bool * RtspSource.

(** [boost::asio::ip::address_v4::from_string(addr, ec)], by the error
    code it leaves in [ec] (line 78); the parsed address is discarded. *)
Variable from_string : string → error_code.

(** [avahi_address_snprint] (line 60): the text of a resolved address. *)
Context {AvahiAddress : Type}.
Variable avahi_address_snprint : AvahiAddress → string.

(** ** Observable actions *)

Inductive Event :=
| EvLog (sev : severity) (msg : LogMsg)   (* BOOST_LOG_TRIVIAL(sev) *)
| EvRunning (b : bool)                    (* running_ = b *)
| EvAsync (tid : nat) (t : AsyncTask)     (* std::async started task tid *)
| EvDescribe (path addr port : string)    (* RTSPClient::describe *)
| EvNewSource (name domain : string) (source : RtspSource)
                                          (* on_new_rtsp_source *)
| EvRemoveSource (name domain : string)   (* on_remove_rtsp_source *)
| EvWait (tid : nat)                      (* future::wait returned *)
| EvGet (tid : nat)                       (* future::get returned *)
| EvResolverFree (r : AvahiServiceResolver)
                                          (* avahi_service_resolver_free *)
| EvPollNew (p : option AvahiThreadedPoll)
                                          (* avahi_threaded_poll_new gave p *)
| EvPollFree (p : AvahiThreadedPoll)      (* deleter of poll_ *)
| EvPollStart (p : option AvahiThreadedPoll)
                                          (* avahi_threaded_poll_start *)
| EvPollStop (p : option AvahiThreadedPoll)
                                          (* avahi_threaded_poll_stop *)
| EvClientNew (p : option AvahiThreadedPoll) (c : option AvahiClient)
                                          (* avahi_client_new on p gave c *)
| EvClientFree (c : AvahiClient).         (* deleter of client_ *)

(** Calls into the host daemon ([on_new_rtsp_source],
    [on_remove_rtsp_source]). *)
Definition is_callback (e : Event) : bool :=
  match e with
  | EvNewSource _ _ _ | EvRemoveSource _ _ => true
  | _ => false
  end.

Definition is_describe (e : Event) : bool :=
  match e with EvDescribe _ _ _ => true | _ => false end.

Definition is_async (e : Event) : bool :=
  match e with EvAsync _ _ => true | _ => false end.

Definition is_wait (e : Event) : bool :=
  match e with EvWait _ => true | _ => false end.

Definition is_get_of (tid : nat) (e : Event) : bool :=
  match e with EvGet t => Nat.eqb t tid | _ => false end.

Definition is_resolver_free (e : Event) : bool :=
  match e with EvResolverFree _ => true | _ => false end.

Definition is_poll_free (e : Event) : bool :=
  match e with EvPollFree _ => true | _ => false end.

Definition count (p : Event → bool) (l : list Event) : nat :=
  length (List.filter p l).

(** ** State *)

Record State := {
  (* members of MDNSClient *)
  running_ : bool;
  sources_res_ : list future;
  poll_ : option AvahiThreadedPoll;
  client_ : option AvahiClient;
  sb_ : option AvahiServiceBrowser;
  (* the world around it *)
  tasks : list (AsyncTask * task_state);
  trace : list Event
}.

(** Modelled from the spec: the constructor is in mdns_client.hpp, which
    is not among the sources.  The spec's run-state starts false and the
    handles are acquired by [init], so a new client is not running, holds
    no handle and has no pending task. *)
Definition MDNSClient_new : State :=
  {| running_ := false; sources_res_ := []; poll_ := None; client_ := None;
     sb_ := None; tasks := []; trace := [] |}.

Definition set_running_ (b : bool) (s : State) : State :=
  {| running_ := b; sources_res_ := sources_res_ s; poll_ := poll_ s;
     client_ := client_ s; sb_ := sb_ s; tasks := tasks s; trace := trace s |}.

Definition set_sources_res_ (l : list future) (s : State) : State :=
  {| running_ := running_ s; sources_res_ := l; poll_ := poll_ s;
     client_ := client_ s; sb_ := sb_ s; tasks := tasks s; trace := trace s |}.

Definition set_poll_ (p : option AvahiThreadedPoll) (s : State) : State :=
  {| running_ := running_ s; sources_res_ := sources_res_ s; poll_ := p;
     client_ := client_ s; sb_ := sb_ s; tasks := tasks s; trace := trace s |}.

Definition set_client_ (c : option AvahiClient) (s : State) : State :=
  {| running_ := running_ s; sources_res_ := sources_res_ s; poll_ := poll_ s;
     client_ := c; sb_ := sb_ s; tasks := tasks s; trace := trace s |}.

Definition set_tasks (t : list (AsyncTask * task_state)) (s : State) : State :=
  {| running_ := running_ s; sources_res_ := sources_res_ s; poll_ := poll_ s;
     client_ := client_ s; sb_ := sb_ s; tasks := t; trace := trace s |}.

Definition set_trace (t : list Event) (s : State) : State :=
  {| running_ := running_ s; sources_res_ := sources_res_ s; poll_ := poll_ s;
     client_ := client_ s; sb_ := sb_ s; tasks := tasks s; trace := t |}.

(** ** The state monad of member functions *)

Definition M (A : Type) : Type := State → A * State.

Definition ret {A} (a : A) : M A := λ s, (a, s).

Definition bind {A B} (m : M A) (k : A → M B) : M B :=
  λ s, let (a, s') := m s in k a s'.

Notation "x <- m ;; k" := (bind m (λ x, k))
  (at level 100, m at next level, right associativity).
Notation "m ;; k" := (bind m (λ _, k))
  (at level 100, right associativity).

Definition load {A} (field : State → A) : M A := λ s, (field s, s).

Definition emit (e : Event) : M unit :=
  λ s, (tt, set_trace (trace s ++ [e]) s).

Definition log (sev : severity) (msg : LogMsg) : M unit := emit (EvLog sev msg).

(** [running_ = b]. *)
Definition store_running (b : bool) : M unit :=
  λ s, (tt, set_trace (trace s ++ [EvRunning b]) (set_running_ b s)).

(** ** Tasks *)

(** The lambda of lines 86-95: one describe request for
    ["/by-name/" + name_], and the host callback when it succeeds. *)
Definition task_body (t : AsyncTask) : list Event :=
  let res := describe ("/by-name/" +:+ name_ t) (addr_ t) (port_ t) in
  EvDescribe ("/by-name/" +:+ name_ t) (addr_ t) (port_ t)
  :: (if res.1 then [EvNewSource (name_ t) (domain_ t) res.2] else []).

(** The environment's step: a task in flight runs to its end. *)
Definition complete (tid : nat) : M unit :=
  λ s, match tasks s !! tid with
       | Some (t, InFlight) =>
           (tt, set_trace (trace s ++ task_body t)
                  (set_tasks (<[tid := (t, Completed)]> (tasks s)) s))
       | _ => (tt, s)
       end.

(** [std::async(std::launch::async, f)]: a new shared state, the task in
    flight on its own thread. *)
Definition async (t : AsyncTask) : M future :=
  λ s, let tid := length (tasks s) in
       (Future (Some tid),
        set_trace (trace s ++ [EvAsync tid t])
          (set_tasks (tasks s ++ [(t, InFlight)]) s)).

(** [sources_res_.emplace_back(f)]. *)
Definition emplace_back (f : future) : M unit :=
  λ s, (tt, set_sources_res_ (sources_res_ s ++ [f]) s).

(** [result.wait_for(std::chrono::milliseconds(0))]: a look at the shared
    state, never [deferred] for a task launched with [launch::async]. *)
Definition wait_for_0 (f : future) : M future_status :=
  λ s, match shared_state f with
       | Some tid =>
           match tasks s !! tid with
           | Some (_, Completed) => (ready, s)
           | _ => (timeout, s)
           end
       | None => (timeout, s)
       end.

(** [result.wait()]: returns once the task has completed.  The code only
    calls it on a valid future (line 259). *)
Definition wait (f : future) : M unit :=
  match shared_state f with
  | Some tid => complete tid ;; emit (EvWait tid)
  | None => ret tt
  end.

(** [result.get()]: waits like [wait] and retrieves the result.  The
    future is invalid afterwards; the code erases it at once (lines
    239-241), so this is not recorded. *)
Definition get (f : future) : M unit :=
  match shared_state f with
  | Some tid => complete tid ;; emit (EvGet tid)
  | None => ret tt
  end.

(** [std::list::remove_if]: the predicate is called once on each element,
    front to back, and the elements it accepts are erased. *)
Fixpoint remove_if (pred : future → M bool) (l : list future)
  : M (list future) :=
  match l with
  | [] => ret []
  | x :: xs =>
      b <- pred x ;;
      xs' <- remove_if pred xs ;;
      ret (if b then xs' else x :: xs')
  end.

(** ** MDNSClient::resolve_callback (lines 30-102) *)

Inductive Eligibility := Eligible | Ineligible.

(** Lines 77-79: the address is eligible when [from_string] leaves no
    error in [ec]. *)
Definition classify (addr : string) : Eligibility :=
  if ec_failed (from_string addr) then Ineligible else Eligible.

Definition resolve_callback (r : AvahiServiceResolver)
    (interface protocol : Z) (event : AvahiResolverEvent)
    (name type domain host_name : string) (address : AvahiAddress)
    (port : N) (flags : Z) : M unit :=
  match event with
  | AVAHI_RESOLVER_FAILURE =>
      log error (ResolverFailed name type domain)
  | AVAHI_RESOLVER_FOUND =>
      log debug (ResolverService name type domain) ;;
      let addr := avahi_address_snprint address in
      log debug (ResolverInfo host_name port addr flags) ;;
      let ec := from_string addr in
      if negb (ec_failed ec) then
        f <- async {| name_ := name; domain_ := domain; addr_ := addr;
                      port_ := to_string port |} ;;
        emplace_back f
      else ret tt
  end ;;
  emit (EvResolverFree r).

(** ** MDNSClient::init (lines 197-226) *)

(** What the two allocations of [init] return in the call at hand:
    [avahi_threaded_poll_new()], [avahi_client_new(...)] and the value
    the latter leaves in [error]. *)
Record AvahiEnv := {
  threaded_poll_new : option AvahiThreadedPoll;
  client_new : option AvahiClient;
  client_new_error : Z
}.

(** Modelled from the spec: [poll_] and [client_] are declared in
    mdns_client.hpp, which is not among the sources; the spec describes
    them as smart handles with a custom deleter.  [reset(p)] stores [p]
    and then runs the deleter on the handle held before, if any. *)
Definition reset_poll (p : option AvahiThreadedPoll) : M unit :=
  λ s, match poll_ s with
       | Some old =>
           (tt, set_trace (trace s ++ [EvPollFree old]) (set_poll_ p s))
       | None => (tt, set_poll_ p s)
       end.

Definition reset_client (c : option AvahiClient) : M unit :=
  λ s, match client_ s with
       | Some old =>
           (tt, set_trace (trace s ++ [EvClientFree old]) (set_client_ c s))
       | None => (tt, set_client_ c s)
       end.

Definition init (USE_AVAHI : bool) (env : AvahiEnv) : M bool :=
  running <- load running_ ;;
  if running then ret true
  else if USE_AVAHI then
    (* allocate poll loop object *)
    emit (EvPollNew (threaded_poll_new env)) ;;
    reset_poll (threaded_poll_new env) ;;
    poll <- load poll_ ;;
    match poll with
    | None => log fatal PollCreateFailed ;; ret false
    | Some _ =>
        (* allocate a new client *)
        emit (EvClientNew poll (client_new env)) ;;
        reset_client (client_new env) ;;
        client <- load client_ ;;
        match client with
        | None =>
            log fatal (ClientCreateFailed (client_new_error env)) ;; ret false
        | Some _ =>
            poll <- load poll_ ;;
            emit (EvPollStart poll) ;;
            store_running true ;;
            ret true
        end
    end
  else
    store_running true ;;
    ret true.

(** ** MDNSClient::process_results (lines 228-247) *)

Definition reap_pred (result : future) : M bool :=
  if negb (valid result) then
    (* if invalid future remove from the list *)
    ret true
  else
    status <- wait_for_0 result ;;
    match status with
    | ready =>
        get result ;;
        (* if completed remove from the list *)
        ret true
    | _ =>
        (* if not completed leave in the list *)
        ret false
    end.

Definition process_results (USE_AVAHI : bool) : M unit :=
  if USE_AVAHI then
    l <- load sources_res_ ;;
    l' <- remove_if reap_pred l ;;
    (λ s, (tt, set_sources_res_ l' s))
  else ret tt.

(** ** MDNSClient::terminate (lines 249-269) *)

Definition drain_pred (result : future) : M bool :=
  (if valid result then wait result else ret tt) ;;
  ret true.

Definition terminate (USE_AVAHI : bool) : M bool :=
  running <- load running_ ;;
  (if running then
     store_running false ;;
     if USE_AVAHI then
       (* wait for all pending results and remove from list *)
       l <- load sources_res_ ;;
       log fatal (WaitingFor (length l)) ;;
       l' <- remove_if drain_pred l ;;
       (λ s, (tt, set_sources_res_ l' s)) ;;
       poll <- load poll_ ;;
       emit (EvPollStop poll)
     else ret tt
   else ret tt) ;;
  ret true.

(** ** Reading a computation *)

Definition value {A} (m : M A) (s : State) : A := (m s).1.
Definition exec {A} (m : M A) (s : State) : State := (m s).2.

(** The task a future refers to has completed. *)
Definition is_ready (s : State) (f : future) : bool :=
  match shared_state f with
  | Some tid =>
      match tasks s !! tid with
      | Some (_, Completed) => true
      | _ => false
      end
  | None => false
  end.

(** The task a future refers to is still running. *)
Definition in_flight (s : State) (f : future) : bool :=
  match shared_state f with
  | Some tid =>
      match tasks s !! tid with
      | Some (_, InFlight) => true
      | _ => false
      end
  | None => false
  end.

Definition reapable (s : State) (f : future) : bool :=
  negb (valid f) || is_ready s f.

Definition ready_tids (s : State) (l : list future) : list nat :=
  omap (λ f, if is_ready s f then shared_state f else None) l.

Definition wait_tid (e : Event) : option nat :=
  match e with EvWait tid => Some tid | _ => None end.

(** What a blocking drain may add to the trace: returns of [wait] and
    the actions of the tasks that ran to their end meanwhile. *)
Definition is_drain_event (e : Event) : bool :=
  match e with
  | EvWait _ | EvDescribe _ _ _ | EvNewSource _ _ _ => true
  | _ => false
  end.

Definition old_poll (p : option AvahiThreadedPoll) : list Event :=
  match p with Some old => [EvPollFree old] | None => [] end.

Definition old_client (c : option AvahiClient) : list Event :=
  match c with Some old => [EvClientFree old] | None => [] end.

(** [s'] is [s] after the tasks of [tids] have been waited for, in that
    order. *)
Definition drained (tids : list nat) (s s' : State) : Prop :=
  running_ s' = running_ s ∧ sources_res_ s' = sources_res_ s ∧
  poll_ s' = poll_ s ∧ client_ s' = client_ s ∧ sb_ s' = sb_ s ∧
  (∀ j t st, tasks s !! j = Some (t, st) →
     tasks s' !! j
     = Some (t, if bool_decide (j ∈ tids) then Completed else st)) ∧
  ∃ evs, trace s' = trace s ++ evs ∧ omap wait_tid evs = tids ∧
         Forall (λ e, is_drain_event e = true) evs.

(** Every task in flight is referred to by an entry of the pending
    list: what [resolve_callback] sets up and the other operations keep. *)
Definition tracked (s : State) : Prop :=
  ∀ tid t, tasks s !! tid = Some (t, InFlight) →
           Future (Some tid) ∈ sources_res_ s.

End MDNSClient.

Arguments State : clear implicits.
Arguments Event : clear implicits.
Arguments M : clear implicits.

(** * A concrete instance

    The theorems below hold for any describe collaborator and any
    address parser.  The instance below fixes both so that the functions
    can be run: the parser reads dotted-decimal IPv4 text the way
    [inet_pton(AF_INET)] does (four decimal fields of value at most 255,
    no leading zero, separated by single dots), and the collaborator
    answers for one host only. *)

Definition is_digit (c : ascii) : bool :=
  (48 <=? nat_of_ascii c)%nat && (nat_of_ascii c <=? 57)%nat.

Definition is_dot (c : ascii) : bool := (nat_of_ascii c =? 46)%nat.

(** [cur] is the value of the field being read, if it has a digit yet;
    [dots] counts the separators seen. *)
Fixpoint dotted_quad (s : string) (cur : option nat) (dots : nat) : bool :=
  match s with
  | EmptyString =>
      match cur with Some _ => (dots =? 3)%nat | None => false end
  | String c rest =>
      if is_digit c then
        let d := nat_of_ascii c - 48 in
        match cur with
        | None => dotted_quad rest (Some d) dots
        | Some v =>
            if (v =? 0)%nat then false
            else if (255 <? 10 * v + d)%nat then false
            else dotted_quad rest (Some (10 * v + d)) dots
        end
      else if is_dot c then
        match cur with
        | Some _ =>
            if (dots <? 3)%nat then dotted_quad rest None (S dots) else false
        | None => false
        end
      else false
  end.

Definition EINVAL : error_code := 22%Z.

Definition address_v4_from_string (s : string) : error_code :=
  if dotted_quad s None 0 then 0%Z else EINVAL.

Fixpoint has_char (p : ascii → bool) (s : string) : bool :=
  match s with
  | EmptyString => false
  | String c rest => p c || has_char p rest
  end.

Definition is_colon (c : ascii) : bool := (nat_of_ascii c =? 58)%nat.

(** The describe collaborator of the examples: the host 192.168.1.10
    answers with a description, every other host fails. *)
Definition describe_lab (path address port : string) : bool * string :=
  (String.eqb address "192.168.1.10", "sdp of " +:+ path).

Definition env_ok : AvahiEnv :=
  {| threaded_poll_new := Some 1; client_new := Some 2;
     client_new_error := 0 |}.

Definition env_no_client : AvahiEnv :=
  {| threaded_poll_new := Some 1; client_new := None;
     client_new_error := -1 |}.

Definition resolve_lab (r : AvahiServiceResolver) (name addr : string)
  : M string () :=
  resolve_callback address_v4_from_string id r 2 0 AVAHI_RESOLVER_FOUND
    name "_rtsp._tcp" "local" (name +:+ ".local") addr 554 0.

(** A running client. *)
Definition st_running : State string := exec (init true env_ok) MDNSClient_new.

(** A running client with two tasks pending: cam1 has completed, cam2
    is in flight. *)
Definition st_pending : State string :=
  exec (complete describe_lab 0)
    (exec (resolve_lab 8 "cam2" "192.168.1.11")
       (exec (resolve_lab 7 "cam1" "192.168.1.10") st_running)).

(** A running client with one task in flight. *)
Definition st_one : State string :=
  exec (resolve_lab 7 "cam1" "192.168.1.10") st_running.

(** * The browse and client handlers, and runs of the client

    [browse_callback] (lines 104-158) and [client_callback] (lines
    160-194) are called by the Avahi event loop.  Besides the client's
    members they act on the provider: they ask the loop to quit, start
    resolvers and create the service browser.  These calls and the log
    lines of the two handlers are kept, in program order, in the
    [actions] of a [System], next to the client's own state; what the
    other functions add to the client's trace enters [actions] as [Core]
    entries, so that [actions] is the whole history. *)

Inductive AvahiBrowserEvent :=
| AVAHI_BROWSER_NEW
| AVAHI_BROWSER_REMOVE
| AVAHI_BROWSER_CACHE_EXHAUSTED
| AVAHI_BROWSER_ALL_FOR_NOW
| AVAHI_BROWSER_FAILURE.

Inductive AvahiClientState :=
| AVAHI_CLIENT_S_REGISTERING
| AVAHI_CLIENT_S_RUNNING
| AVAHI_CLIENT_S_COLLISION
| AVAHI_CLIENT_FAILURE
| AVAHI_CLIENT_CONNECTING.

(** Constants of the Avahi headers (avahi-common/address.h, defs.h). *)
Definition AVAHI_PROTO_INET : Z := 0.
Definition AVAHI_PROTO_UNSPEC : Z := -1.
Definition AVAHI_LOOKUP_NO_TXT : Z := 4.

(** One constructor per log statement of the two handlers. *)
Inductive HandlerLog :=
| LogBrowserFailure
| LogBrowserNew (name type domain : string)
| LogResolverNewFailed (name : string)
| LogBrowserRemove (name type domain : string)
| LogAllForNow
| LogCacheExhausted
| LogClientFailure
| LogBrowserCreateFailed.

Section Handlers.

Context {RtspSource : Type}.
Variable describe : string → string → string → bool * RtspSource.
Variable from_string : string → error_code.
Context {AvahiAddress : Type}.
Variable avahi_address_snprint : AvahiAddress → string.

Inductive Action :=
| Core (e : Event RtspSource)             (* an action of the client's trace *)
| HLog (sev : severity) (msg : HandlerLog)
                                          (* BOOST_LOG_TRIVIAL(sev) *)
| AvPollQuit (p : option AvahiThreadedPoll)
                                          (* avahi_threaded_poll_quit *)
| AvResolverNew (client : option AvahiClient) (interface protocol : Z)
    (name type domain : string) (aprotocol flags : Z)
    (r : option AvahiServiceResolver)     (* avahi_service_resolver_new gave r *)
| AvBrowserNew (client : AvahiClient) (interface protocol : Z)
    (type : string) (flags : Z) (b : option AvahiServiceBrowser)
                                          (* avahi_service_browser_new gave b *)
| AvBrowserFree (b : AvahiServiceBrowser).
                                          (* deleter of sb_ *)

Record System := {
  mdns : State RtspSource;
  actions : list Action
}.

Definition H (A : Type) : Type := System → A * System.

Definition hret {A} (a : A) : H A := λ sys, (a, sys).

Definition hbind {A B} (m : H A) (k : A → H B) : H B :=
  λ sys, let (a, sys') := m sys in k a sys'.

Notation "x <- m ;; k" := (hbind m (λ x, k))
  (at level 100, m at next level, right associativity).
Notation "m ;; k" := (hbind m (λ _, k))
  (at level 100, right associativity).

(** Reading a member of the client. *)
Definition member {A} (field : State RtspSource → A) : H A :=
  λ sys, (field (mdns sys), sys).

(** A call into the provider, or a log line of a handler. *)
Definition act (a : Action) : H unit :=
  λ sys, (tt, {| mdns := mdns sys; actions := actions sys ++ [a] |}).

(** A call into the host daemon made by a handler. *)
Definition host (e : Event RtspSource) : H unit :=
  λ sys, (tt, {| mdns := set_trace (trace (mdns sys) ++ [e]) (mdns sys);
                 actions := actions sys ++ [Core e] |}).

(** A function of the client run within the system: what it appends to
    the trace is appended to the history. *)
Definition core {A} (m : M RtspSource A) : H A :=
  λ sys, let (a, s') := m (mdns sys) in
         (a, {| mdns := s';
                actions := actions sys
                  ++ map Core (drop (length (trace (mdns sys))) (trace s')) |}).

Definition set_sb_ (b : option AvahiServiceBrowser) (s : State RtspSource)
  : State RtspSource :=
  {| running_ := running_ s; sources_res_ := sources_res_ s; poll_ := poll_ s;
     client_ := client_ s; sb_ := b; tasks := tasks s; trace := trace s |}.

(** Modelled from the spec: [sb_] is declared in mdns_client.hpp, which
    is not among the sources; like [poll_] and [client_] it is a smart
    handle with a custom deleter.  [reset(b)] stores [b] and then runs
    the deleter on the browser held before, if any. *)
Definition reset_sb (b : option AvahiServiceBrowser) : H unit :=
  λ sys, (tt, {| mdns := set_sb_ b (mdns sys);
                 actions := actions sys
                   ++ match sb_ (mdns sys) with
                      | Some old => [AvBrowserFree old]
                      | None => []
                      end |}).

(** ** MDNSClient::browse_callback (lines 104-158)

    [resolver_new] is what [avahi_service_resolver_new] returns in the
    call at hand. *)
Definition browse_callback (b : AvahiServiceBrowser) (interface protocol : Z)
    (event : AvahiBrowserEvent) (name type domain : string) (flags : Z)
    (resolver_new : option AvahiServiceResolver) : H unit :=
  match event with
  | AVAHI_BROWSER_FAILURE =>
      act (HLog fatal LogBrowserFailure) ;;
      poll <- member poll_ ;;
      act (AvPollQuit poll)
  | AVAHI_BROWSER_NEW =>
      act (HLog info (LogBrowserNew name type domain)) ;;
      client <- member client_ ;;
      act (AvResolverNew client interface protocol name type domain
             AVAHI_PROTO_UNSPEC AVAHI_LOOKUP_NO_TXT resolver_new) ;;
      match resolver_new with
      | None => act (HLog error (LogResolverNewFailed name))
      | Some _ => hret tt
      end
  | AVAHI_BROWSER_REMOVE =>
      act (HLog info (LogBrowserRemove name type domain)) ;;
      host (EvRemoveSource name domain)
  | AVAHI_BROWSER_ALL_FOR_NOW =>
      act (HLog debug LogAllForNow)
  | AVAHI_BROWSER_CACHE_EXHAUSTED =>
      act (HLog debug LogCacheExhausted)
  end.

(** ** MDNSClient::client_callback (lines 160-194)

    [interface_idx] is what [config_->get_interface_idx()] returns and
    [browser_new] what [avahi_service_browser_new] returns in the call
    at hand. *)
Definition client_callback (client : AvahiClient) (state : AvahiClientState)
    (interface_idx : Z) (browser_new : option AvahiServiceBrowser) : H unit :=
  match state with
  | AVAHI_CLIENT_FAILURE =>
      act (HLog fatal LogClientFailure) ;;
      (* TODO reconnect if disconnected *)
      poll <- member poll_ ;;
      act (AvPollQuit poll)
  | AVAHI_CLIENT_S_REGISTERING
  | AVAHI_CLIENT_S_RUNNING
  | AVAHI_CLIENT_S_COLLISION =>
      (* Create the service browser *)
      act (AvBrowserNew client interface_idx AVAHI_PROTO_INET "_rtsp._tcp" 0
             browser_new) ;;
      reset_sb browser_new ;;
      sb <- member sb_ ;;
      match sb with
      | None =>
          act (HLog fatal LogBrowserCreateFailed) ;;
          poll <- member poll_ ;;
          act (AvPollQuit poll)
      | Some _ => hret tt
      end
  | AVAHI_CLIENT_CONNECTING => hret tt
  end.

(** ** Runs

    What can happen to a client built with Avahi: a call of one of its
    three member functions by the host, the completion of a task, or a
    call of one of the three handlers by the event loop. *)
Inductive Op :=
| OpInit (env : AvahiEnv)
| OpProcessResults
| OpTerminate
| OpComplete (tid : nat)
| OpResolve (r : AvahiServiceResolver) (interface protocol : Z)
    (event : AvahiResolverEvent) (name type domain host_name : string)
    (address : AvahiAddress) (port : N) (flags : Z)
| OpBrowse (b : AvahiServiceBrowser) (interface protocol : Z)
    (event : AvahiBrowserEvent) (name type domain : string) (flags : Z)
    (resolver_new : option AvahiServiceResolver)
| OpClient (client : AvahiClient) (state : AvahiClientState)
    (interface_idx : Z) (browser_new : option AvahiServiceBrowser).

Definition step (op : Op) (sys : System) : System :=
  match op with
  | OpInit env => (core (init true env) sys).2
  | OpProcessResults => (core (process_results describe true) sys).2
  | OpTerminate => (core (terminate describe true) sys).2
  | OpComplete tid => (core (complete describe tid) sys).2
  | OpResolve r interface protocol event name type domain host_name
      address port flags =>
      (core (resolve_callback from_string avahi_address_snprint r interface
               protocol event name type domain host_name address port flags)
         sys).2
  | OpBrowse b interface protocol event name type domain flags resolver_new =>
      (browse_callback b interface protocol event name type domain flags
         resolver_new sys).2
  | OpClient client state interface_idx browser_new =>
      (client_callback client state interface_idx browser_new sys).2
  end.

(** A new client with an empty history. *)
Definition boot : System := {| mdns := MDNSClient_new; actions := [] |}.

(** The system after the operations [ops], first to last. *)
Definition run (ops : list Op) : System :=
  foldl (λ sys op, step op sys) boot ops.

(** ** What is counted *)

Definition pending_tids (s : State RtspSource) : list nat :=
  omap shared_state (sources_res_ s).

Definition is_new_source (e : Event RtspSource) : bool :=
  match e with EvNewSource _ _ _ => true | _ => false end.

Definition is_poll_acquired (e : Event RtspSource) : bool :=
  match e with EvPollNew (Some _) => true | _ => false end.

Definition is_client_acquired (e : Event RtspSource) : bool :=
  match e with EvClientNew _ (Some _) => true | _ => false end.

Definition is_client_free (e : Event RtspSource) : bool :=
  match e with EvClientFree _ => true | _ => false end.

(** A start or stop of the event loop on a null poll object. *)
Definition is_null_poll_call (e : Event RtspSource) : bool :=
  match e with EvPollStart None | EvPollStop None => true | _ => false end.



Definition is_poll_quit (a : Action) : bool :=
  match a with AvPollQuit _ => true | _ => false end.

Definition count_actions (p : Action → bool) (l : list Action) : nat :=
  length (List.filter p l).

(** 1 for a handle that is held, 0 for a null one. *)
Definition held {A} (o : option A) : nat :=
  match o with Some _ => 1 | None => 0 end.

Definition completed (x : AsyncTask * task_state) : bool :=
  match x.2 with Completed => true | InFlight => false end.

(** A completed task whose describe request succeeded. *)
Definition succeeded (x : AsyncTask * task_state) : bool :=
  completed x
  && (describe ("/by-name/" +:+ name_ x.1) (addr_ x.1) (port_ x.1)).1.

(** The pending list is well formed: its futures are valid, refer to
    tasks of the table and to different ones; no result of a pending
    task, or of a task not yet started, has been retrieved, and no
    result has been retrieved twice. *)
Record pending_ok (s : State RtspSource) : Prop := {
  pending_valid : Forall (λ f, valid f = true) (sources_res_ s);
  pending_bound :
    Forall (λ tid, (tid < length (tasks s))%nat) (pending_tids s);
  pending_nodup : NoDup (pending_tids s);
  pending_tracked : tracked s;
  pending_no_get : ∀ tid, tid ∈ pending_tids s →
                          count (is_get_of tid) (trace s) = 0;
  fresh_no_get : ∀ tid, (length (tasks s) ≤ tid)%nat →
                        count (is_get_of tid) (trace s) = 0;
  get_once : ∀ tid, (count (is_get_of tid) (trace s) ≤ 1)%nat
}.

(** The trace accounts for the task table: one launch per task, one
    describe request per completed task, one [on_new_rtsp_source] per
    completed task whose request succeeded. *)
Record accounted (s : State RtspSource) : Prop := {
  acc_async : count is_async (trace s) = length (tasks s);
  acc_describe :
    count is_describe (trace s) = length (List.filter completed (tasks s));
  acc_new_source :
    count is_new_source (trace s) = length (List.filter succeeded (tasks s))
}.

(** The poll and client objects are accounted for: each one acquired
    has been freed or is held; a running client holds both; the event
    loop was never started or stopped on a null poll object. *)
Record handles_ok (s : State RtspSource) : Prop := {
  poll_accounted :
    count is_poll_acquired (trace s)
    = count is_poll_free (trace s) + held (poll_ s);
  client_accounted :
    count is_client_acquired (trace s)
    = count is_client_free (trace s) + held (client_ s);
  running_holds :
    running_ s = true → is_Some (poll_ s) ∧ is_Some (client_ s);
  no_null_poll_call : count is_null_poll_call (trace s) = 0
}.

(** The entry of the client's trace behind an entry of the history. *)
Definition core_event (a : Action) : option (Event RtspSource) :=
  match a with Core e => Some e | _ => None end.

Definition is_remove_source (e : Event RtspSource) : bool :=
  match e with EvRemoveSource _ _ => true | _ => false end.

(** A removal reported to the browse handler. *)
Definition is_remove_op (op : Op) : bool :=
  match op with
  | OpBrowse _ _ _ AVAHI_BROWSER_REMOVE _ _ _ _ _ => true
  | _ => false
  end.

(** A call of the resolve handler. *)
Definition is_resolve_op (op : Op) : bool :=
  match op with
  | OpResolve _ _ _ _ _ _ _ _ _ _ _ => true
  | _ => false
  end.

Definition count_ops (p : Op → bool) (ops : list Op) : nat :=
  length (List.filter p ops).

End Handlers.

Arguments Action : clear implicits.
Arguments System : clear implicits.
Arguments H : clear implicits.
Arguments Op : clear implicits.

(** A run of the concrete instance: the client starts, the browser is
    created, two services are discovered and resolved, the first describe
    task completes and the host ticks once. *)
Definition ops_lab : list (Op string) :=
  [OpInit env_ok;
   OpClient 2 AVAHI_CLIENT_S_RUNNING 3 (Some 5);
   OpBrowse 5 3 0 AVAHI_BROWSER_NEW "cam1" "_rtsp._tcp" "local" 0 (Some 7);
   OpResolve 7 3 0 AVAHI_RESOLVER_FOUND "cam1" "_rtsp._tcp" "local"
     "cam1.local" "192.168.1.10" 554 0;
   OpBrowse 5 3 0 AVAHI_BROWSER_NEW "cam2" "_rtsp._tcp" "local" 0 (Some 8);
   OpResolve 8 3 0 AVAHI_RESOLVER_FOUND "cam2" "_rtsp._tcp" "local"
     "cam2.local" "192.168.1.11" 554 0;
   OpComplete 0;
   OpProcessResults].

Definition run_lab (ops : list (Op string)) : System string :=
  run describe_lab address_v4_from_string id ops.


(** * Properties *)

Ltac run :=
  unfold value, exec, bind, ret, load, log, emit, store_running; simpl.

Section Properties.

Context {RtspSource : Type}.
Variable describe : string → string → string → bool * RtspSource.
Variable from_string : string → error_code.
Context {AvahiAddress : Type}.
Variable avahi_address_snprint : AvahiAddress → string.

Implicit Types (s : State RtspSource) (e : Event RtspSource).

(** ** Basic facts *)

Lemma set_trace_id s : set_trace (trace s) s = s.
Proof. by destruct s. Qed.

Lemma set_trace_nil s : set_trace (trace s ++ []) s = s.
Proof. rewrite app_nil_r. apply set_trace_id. Qed.

Lemma count_app (p : Event RtspSource → bool) l1 l2 :
  count p (l1 ++ l2) = count p l1 + count p l2.
Proof. unfold count. by rewrite List.filter_app, length_app. Qed.

Lemma count_zero_Forall (p : Event RtspSource → bool) l :
  Forall (λ e, p e = false) l → count p l = 0.
Proof.
  unfold count. induction 1 as [|e l He _ IH]; simpl; [done|].
  by rewrite He.
Qed.

(** ** init and terminate on the run flag *)

Lemma init_running_noop USE_AVAHI env s :
  running_ s = true → init USE_AVAHI env s = (true, s).
Proof. intros Hr. unfold init. run. by rewrite Hr. Qed.

Lemma init_success_running USE_AVAHI env s :
  value (init USE_AVAHI env) s = true →
  running_ (exec (init USE_AVAHI env) s) = true.
Proof.
  unfold init, reset_poll, reset_client. run.
  destruct (running_ s) eqn:Hr; [done|].
  destruct USE_AVAHI; [|done].
  destruct (poll_ s), (threaded_poll_new env); simpl; try done;
    destruct (client_ s), (client_new env); simpl; done.
Qed.

(** After a successful [init], a second [init] changes nothing. *)
Lemma init_twice_in_a_row USE_AVAHI env env' s :
  value (init USE_AVAHI env) s = true →
  init USE_AVAHI env' (exec (init USE_AVAHI env) s)
  = (true, exec (init USE_AVAHI env) s).
Proof. intros H. by apply init_running_noop, init_success_running. Qed.

(** C5: in a state where the client is running, [init] returns true at
    once and leaves the state as it is, so a second call in a row is the
    same as one call. *)
Theorem init_idempotent USE_AVAHI env env' s :
  running_ s = true →
  init USE_AVAHI env s = (true, s) ∧
  init USE_AVAHI env' (exec (init USE_AVAHI env) s) = init USE_AVAHI env s.
Proof.
  intros Hr. unfold exec.
  rewrite (init_running_noop USE_AVAHI env s Hr). simpl.
  split; [done|]. by apply init_running_noop.
Qed.

(** C8: [terminate] on a client that is not running (as before any
    [init]) returns true and leaves the whole state as it is: no wait, no
    change to the pending list, nothing done to the event loop. *)
Theorem terminate_not_running_noop USE_AVAHI s :
  running_ s = false → terminate describe USE_AVAHI s = (true, s).
Proof. intros Hr. unfold terminate. run. by rewrite Hr. Qed.

(** ** Completion of a task *)

Lemma complete_in_flight tid t s :
  tasks s !! tid = Some (t, InFlight) →
  exec (complete describe tid) s
  = set_trace (trace s ++ task_body describe t)
      (set_tasks (<[tid := (t, Completed)]> (tasks s)) s).
Proof. intros H. unfold exec, complete. by rewrite H. Qed.

Lemma complete_completed tid t s :
  tasks s !! tid = Some (t, Completed) → exec (complete describe tid) s = s.
Proof. intros H. unfold exec, complete. by rewrite H. Qed.

(** ** The resolve handler *)

Section Resolve.

Variables (r : AvahiServiceResolver) (interface protocol : Z).
Variables (name type domain host_name : string).
Variables (address : AvahiAddress) (port : N) (flags : Z).

(** The handler applied to the arguments above, by event. *)
Local Abbreviation addr := (avahi_address_snprint address).
Local Abbreviation handler event :=
  (resolve_callback from_string avahi_address_snprint r interface protocol
     event name type domain host_name address port flags).
Local Abbreviation found := (handler AVAHI_RESOLVER_FOUND).
Local Abbreviation failure := (handler AVAHI_RESOLVER_FAILURE).
Local Abbreviation task :=
  {| name_ := name; domain_ := domain; addr_ := addr;
     port_ := to_string port |}.

Lemma resolve_failure s :
  exec failure s
  = set_trace (trace s ++ [EvLog error (ResolverFailed name type domain);
                           EvResolverFree r]) s.
Proof.
  unfold resolve_callback. run. by rewrite <- app_assoc.
Qed.

Lemma resolve_found_ineligible s :
  ec_failed (from_string addr) = true →
  exec found s
  = set_trace (trace s ++ [EvLog debug (ResolverService name type domain);
                           EvLog debug (ResolverInfo host_name port addr flags);
                           EvResolverFree r]) s.
Proof.
  intros Hec. unfold resolve_callback. run. rewrite Hec.
  simpl. by rewrite <- !app_assoc.
Qed.

Lemma resolve_found_eligible s :
  ec_failed (from_string addr) = false →
  exec found s
  = set_trace (trace s ++ [EvLog debug (ResolverService name type domain);
                           EvLog debug (ResolverInfo host_name port addr flags);
                           EvAsync (length (tasks s)) task;
                           EvResolverFree r])
      (set_sources_res_ (sources_res_ s ++ [Future (Some (length (tasks s)))])
         (set_tasks (tasks s ++ [(task, InFlight)]) s)).
Proof.
  intros Hec. unfold resolve_callback. run. rewrite Hec.
  unfold async, emplace_back. simpl. by rewrite <- !app_assoc.
Qed.

(** C9: whatever the event, the handler ends by freeing the resolver it
    was given, and frees no resolver before that; on a failure it only
    logs and frees. *)
Theorem resolve_callback_frees_resolver_once event s :
  (∃ evs,
     trace (exec (handler event) s) = trace s ++ evs ++ [EvResolverFree r] ∧
     count is_resolver_free evs = 0 ∧
     count is_resolver_free (evs ++ [EvResolverFree r]) = 1) ∧
  exec (handler AVAHI_RESOLVER_FAILURE) s
  = set_trace (trace s ++ [EvLog error (ResolverFailed name type domain);
                           EvResolverFree r]) s.
Proof.
  split; [|apply resolve_failure].
  destruct event.
  - destruct (ec_failed (from_string addr)) eqn:Hec.
    + rewrite (resolve_found_ineligible s Hec). simpl.
      by eexists [_; _].
    + rewrite (resolve_found_eligible s Hec). simpl.
      by eexists [_; _; _].
  - rewrite resolve_failure. simpl. by eexists [_].
Qed.

(** C2: an address text that the IPv4 parser rejects (any address of the
    other family) is Ineligible, and the handler then starts no task:
    the pending list and the task table are as before and the handler
    performs no launch, no describe request and no host callback.  An
    address text the parser accepts is Eligible, and a task is queued. *)
Theorem resolve_callback_classifies s :
  (ec_failed (from_string addr) = true →
   classify from_string addr = Ineligible ∧
   sources_res_ (exec (handler AVAHI_RESOLVER_FOUND) s) = sources_res_ s ∧
   tasks (exec (handler AVAHI_RESOLVER_FOUND) s) = tasks s ∧
   ∃ evs,
     trace (exec (handler AVAHI_RESOLVER_FOUND) s) = trace s ++ evs ∧
     count is_async evs = 0 ∧ count is_describe evs = 0 ∧
     count is_callback evs = 0) ∧
  (ec_failed (from_string addr) = false →
   classify from_string addr = Eligible ∧
   sources_res_ (exec (handler AVAHI_RESOLVER_FOUND) s)
   = sources_res_ s ++ [Future (Some (length (tasks s)))]).
Proof.
  split; intros Hec.
  - rewrite (resolve_found_ineligible s Hec). unfold classify. rewrite Hec.
    simpl. repeat split. by eexists.
  - rewrite (resolve_found_eligible s Hec). unfold classify. by rewrite Hec.
Qed.

(** C3: the task queued for an eligible address holds the name, the
    domain, the address text and the decimal port.  When it runs it makes
    one describe request, for ["/by-name/" + name] at that address and
    port; it calls [on_new_rtsp_source(name, domain, description)] once
    if the request succeeds and makes no callback if it fails; once
    completed it never runs again. *)
Theorem describe_task_request_and_callback s :
  ec_failed (from_string addr) = false →
  let s1 := exec (handler AVAHI_RESOLVER_FOUND) s in
  let tid := length (tasks s) in
  let path := "/by-name/" +:+ name in
  let res := describe path addr (to_string port) in
  let s2 := exec (complete describe tid) s1 in
  sources_res_ s1 = sources_res_ s ++ [Future (Some tid)] ∧
  tasks s1 !! tid
  = Some ({| name_ := name; domain_ := domain; addr_ := addr;
             port_ := to_string port |}, InFlight) ∧
  (∃ evs,
     trace s2 = trace s1 ++ evs ∧
     evs = EvDescribe path addr (to_string port)
           :: (if res.1 then [EvNewSource name domain res.2] else []) ∧
     count is_describe evs = 1 ∧
     count is_callback evs = (if res.1 then 1 else 0)) ∧
  exec (complete describe tid) s2 = s2.
Proof.
  intros Hec. simpl.
  rewrite (resolve_found_eligible s Hec). simpl.
  assert (Hl : (tasks s ++ [(task, InFlight)]) !! length (tasks s)
               = Some (task, InFlight)).
  { by rewrite lookup_app_r, Nat.sub_diag. }
  split; [done|]. split; [done|].
  rewrite (complete_in_flight (length (tasks s)) task) by done. simpl. split.
  - eexists. split; [done|]. split; [done|].
    unfold task_body. simpl.
    destruct (describe _ _ _) as [[|] src]; by simpl.
  - apply (complete_completed _ task). simpl.
    apply list_lookup_insert_eq. rewrite length_app. simpl. lia.
Qed.

End Resolve.

(** ** Builds without Avahi *)

Lemma process_results_no_avahi s : process_results describe false s = (tt, s).
Proof. done. Qed.

Lemma terminate_no_avahi s :
  running_ s = true →
  terminate describe false s
  = (true, set_trace (trace s ++ [EvRunning false]) (set_running_ false s)).
Proof. intros Hr. unfold terminate. run. by rewrite Hr. Qed.

(** ** The non-blocking reap *)

Lemma remove_if_reap l : ∀ s,
  remove_if (reap_pred describe) l s
  = (List.filter (λ f, negb (reapable s f)) l,
     set_trace (trace s ++ map EvGet (ready_tids s l)) s).
Proof.
  induction l as [|[[tid|]] l IH]; intros s; simpl.
  - unfold ret. by rewrite set_trace_nil.
  - unfold bind at 1. unfold reap_pred, reapable, ready_tids, is_ready. simpl.
    unfold bind at 1. unfold wait_for_0. simpl.
    destruct (tasks s !! tid) as [[t [|]]|] eqn:Ht; simpl.
    + unfold bind, ret. rewrite IH. done.
    + unfold get, bind at 1 2 3. simpl.
      rewrite (surjective_pairing (complete describe tid s)).
      change (complete describe tid s).2 with (exec (complete describe tid) s).
      rewrite (complete_completed tid t s Ht). unfold emit, ret, bind. simpl.
      rewrite IH. simpl. by rewrite <- app_assoc.
    + unfold bind, ret. rewrite IH. done.
  - unfold bind at 1. unfold reap_pred. simpl. unfold ret at 1.
    unfold bind, ret. rewrite IH. done.
Qed.

Lemma in_flight_not_reapable s f : in_flight s f = true → reapable s f = false.
Proof.
  unfold in_flight, reapable, is_ready, valid.
  destruct (shared_state f) as [tid|]; [|done].
  by destruct (tasks s !! tid) as [[t [|]]|].
Qed.

(** C4: [process_results] erases from the pending list exactly the
    futures that are invalid or whose task has completed, keeping the
    others in their order; a future whose task is in flight is never
    erased; the task table is as before (nothing is waited for) and the
    only actions are the [get] calls on the completed ones. *)
Theorem process_results_reaps_only_finished s :
  sources_res_ (exec (process_results describe true) s)
  = List.filter (λ f, negb (reapable s f)) (sources_res_ s) ∧
  (∀ f, f ∈ sources_res_ (exec (process_results describe true) s) ↔
        f ∈ sources_res_ s ∧ valid f = true ∧ is_ready s f = false) ∧
  (∀ f, f ∈ sources_res_ s → in_flight s f = true →
        f ∈ sources_res_ (exec (process_results describe true) s)) ∧
  tasks (exec (process_results describe true) s) = tasks s ∧
  running_ (exec (process_results describe true) s) = running_ s ∧
  poll_ (exec (process_results describe true) s) = poll_ s ∧
  ∃ evs,
    trace (exec (process_results describe true) s) = trace s ++ evs ∧
    evs = map EvGet (ready_tids s (sources_res_ s)) ∧
    count is_wait evs = 0.
Proof.
  assert (Hmem : ∀ f,
             f ∈ List.filter (λ f, negb (reapable s f)) (sources_res_ s)
             ↔ f ∈ sources_res_ s ∧ reapable s f = false).
  { intros f. rewrite !list_elem_of_In, List.filter_In.
    by rewrite negb_true_iff. }
  unfold exec, process_results, bind, load. simpl.
  rewrite remove_if_reap. simpl. split; [done|].
  split; [|split; [|repeat split]].
  - intros f. rewrite Hmem. unfold reapable.
    rewrite orb_false_iff, negb_false_iff. tauto.
  - intros f Hin Hfl. apply Hmem. split; [done|].
    by apply in_flight_not_reapable.
  - eexists. split; [done|]. split; [done|].
    apply count_zero_Forall, Forall_forall. intros e.
    rewrite list_elem_of_In, List.in_map_iff. by intros (tid & <- & _).
Qed.

(** ** The blocking drain *)

Lemma drained_nil s : drained [] s s.
Proof.
  repeat split; try done.
  exists []. by rewrite app_nil_r.
Qed.

Lemma drained_app l1 l2 s s1 s2 :
  drained l1 s s1 → drained l2 s1 s2 → drained (l1 ++ l2) s s2.
Proof.
  intros (Hr1 & Hs1 & Hp1 & Hc1 & Hb1 & Ht1 & evs1 & He1 & Hw1 & Hd1)
         (Hr2 & Hs2 & Hp2 & Hc2 & Hb2 & Ht2 & evs2 & He2 & Hw2 & Hd2).
  repeat split; try congruence.
  - intros j t st Hj. rewrite (Ht2 _ _ _ (Ht1 _ _ _ Hj)). f_equal. f_equal.
    repeat case_bool_decide; try done;
      rewrite elem_of_app in *; tauto.
  - exists (evs1 ++ evs2). split; [|split].
    + by rewrite He2, He1, app_assoc.
    + by rewrite omap_app, Hw1, Hw2.
    + by apply Forall_app.
Qed.

Lemma task_body_drain_events t :
  omap wait_tid (task_body describe t) = [] ∧
  Forall (λ e, is_drain_event e = true) (task_body describe t).
Proof.
  unfold task_body. destruct (describe _ _ _) as [[|] src]; simpl;
    split; try done; repeat constructor.
Qed.

Lemma wait_drained tid s :
  drained [tid] s (exec (wait describe (Future (Some tid))) s).
Proof.
  unfold exec, wait, bind, emit, complete. simpl.
  destruct (tasks s !! tid) as [[t0 [|]]|] eqn:Ht; simpl.
  - destruct (task_body_drain_events t0) as [Hw Hd].
    repeat split; try done.
    + intros j t st Hj. simpl. destruct (decide (j = tid)) as [->|Hne].
      * rewrite list_lookup_insert_eq by by eapply lookup_lt_Some.
        rewrite bool_decide_eq_true_2 by by apply list_elem_of_singleton.
        congruence.
      * rewrite list_lookup_insert_ne by done.
        rewrite bool_decide_eq_false_2 by by rewrite list_elem_of_singleton.
        done.
    + exists (task_body describe t0 ++ [EvWait tid]). split; [|split].
      * simpl. by rewrite <- app_assoc.
      * by rewrite omap_app, Hw.
      * apply Forall_app. split; [done|]. by repeat constructor.
  - repeat split; try done.
    + intros j t st Hj. case_bool_decide as Hin; [|done].
      apply list_elem_of_singleton in Hin. subst. simpl. congruence.
    + exists [EvWait tid]. repeat split; try done. by repeat constructor.
  - repeat split; try done.
    + intros j t st Hj. case_bool_decide as Hin; [|done].
      apply list_elem_of_singleton in Hin. subst. simpl. congruence.
    + exists [EvWait tid]. repeat split; try done. by repeat constructor.
Qed.

Lemma remove_if_cons pred x xs s :
  remove_if pred (x :: xs) s
  = ((if (pred x s).1 then (remove_if pred xs (pred x s).2).1
      else x :: (remove_if pred xs (pred x s).2).1),
     (remove_if pred xs (pred x s).2).2).
Proof.
  simpl. unfold bind, ret. destruct (pred x s) as [b s1]. simpl.
  by destruct (remove_if pred xs s1).
Qed.

Lemma drain_pred_step f s :
  drain_pred describe f s
  = (true, if valid f then exec (wait describe f) s else s).
Proof.
  unfold drain_pred, bind, ret, exec. destruct (valid f); [|done].
  by destruct (wait describe f s).
Qed.

Lemma remove_if_drain l : ∀ s,
  (remove_if (drain_pred describe) l s).1 = [] ∧
  drained (omap shared_state l) s (remove_if (drain_pred describe) l s).2.
Proof.
  induction l as [|[[tid|]] l IH]; intros s.
  - split; [done|]. apply drained_nil.
  - rewrite remove_if_cons, drain_pred_step. simpl.
    destruct (IH (exec (wait describe (Future (Some tid))) s)) as [Hnil Hd].
    split; [done|].
    apply (drained_app [tid] _ s _ _ (wait_drained tid s) Hd).
  - rewrite remove_if_cons, drain_pred_step. simpl. apply IH.
Qed.

Lemma terminate_running_eq s :
  running_ s = true →
  terminate describe true s
  = let s0 := set_trace
                (trace s
                 ++ [EvRunning false;
                     EvLog fatal (WaitingFor (length (sources_res_ s)))])
                (set_running_ false s) in
    let res := remove_if (drain_pred describe) (sources_res_ s) s0 in
    (true, set_trace (trace res.2 ++ [EvPollStop (poll_ res.2)])
             (set_sources_res_ res.1 res.2)).
Proof.
  intros Hr. unfold terminate. run. rewrite Hr. simpl.
  rewrite <- app_assoc. simpl.
  by destruct (remove_if (drain_pred describe) _ _).
Qed.

(** What [terminate] does on a running client built with Avahi. *)
Lemma terminate_running s :
  running_ s = true →
  value (terminate describe true) s = true ∧
  running_ (exec (terminate describe true) s) = false ∧
  sources_res_ (exec (terminate describe true) s) = [] ∧
  poll_ (exec (terminate describe true) s) = poll_ s ∧
  client_ (exec (terminate describe true) s) = client_ s ∧
  (∀ j t st, tasks s !! j = Some (t, st) →
     tasks (exec (terminate describe true) s) !! j
     = Some (t, if bool_decide (j ∈ omap shared_state (sources_res_ s))
                then Completed else st)) ∧
  ∃ evs,
    trace (exec (terminate describe true) s)
    = trace s ++ EvRunning false
        :: EvLog fatal (WaitingFor (length (sources_res_ s)))
        :: evs ++ [EvPollStop (poll_ s)] ∧
    omap wait_tid evs = omap shared_state (sources_res_ s) ∧
    Forall (λ e, is_drain_event e = true) evs.
Proof.
  intros Hr. unfold value, exec. rewrite (terminate_running_eq s Hr).
  set (s0 := set_trace _ (set_running_ false s)).
  destruct (remove_if_drain (sources_res_ s) s0) as [Hnil Hd].
  destruct Hd as (Hr2 & Hs2 & Hp2 & Hc2 & Hb2 & Ht2 & evs & He & Hw & Hdr).
  simpl. rewrite Hnil, Hr2, Hp2, Hc2, He. subst s0. simpl.
  repeat split; try done.
  exists evs. rewrite <- !app_assoc. by simpl.
Qed.

Lemma remove_if_drain_invalid l s :
  Forall (λ f, valid f = false) l →
  remove_if (drain_pred describe) l s = ([], s).
Proof.
  induction 1 as [|f l Hf _ IH]; [done|].
  rewrite remove_if_cons, drain_pred_step, Hf. simpl. by rewrite IH.
Qed.

Lemma drain_event_not_get tid e :
  is_drain_event e = true → is_get_of tid e = false.
Proof. by destruct e. Qed.

Lemma drain_event_not_poll_free e :
  is_drain_event e = true → is_poll_free e = false.
Proof. by destruct e. Qed.

(** C1, as the code has it: [terminate] on a running client returns
    after every task that had completed before or is referred to by the
    pending list has completed; it waits once on each valid entry, in
    list order, and retrieves no result (it never calls [get]); with an
    empty list it waits for nothing and only clears the flag, logs and
    stops the event loop. *)
Theorem terminate_drain_waits_for_all s :
  running_ s = true →
  (∀ tid t st, tasks s !! tid = Some (t, st) →
     st = Completed ∨ Future (Some tid) ∈ sources_res_ s →
     tasks (exec (terminate describe true) s) !! tid = Some (t, Completed)) ∧
  (∃ evs,
     trace (exec (terminate describe true) s) = trace s ++ evs ∧
     omap wait_tid evs = omap shared_state (sources_res_ s) ∧
     ∀ tid, count (is_get_of tid) evs = 0) ∧
  (sources_res_ s = [] →
   exec (terminate describe true) s
   = set_trace (trace s ++ [EvRunning false; EvLog fatal (WaitingFor 0);
                            EvPollStop (poll_ s)])
       (set_running_ false s)).
Proof.
  intros Hr.
  destruct (terminate_running s Hr)
    as (_ & _ & _ & _ & _ & Ht & evs & He & Hw & Hd).
  split; [|split].
  - intros tid t st Hl [->|Hin]; rewrite (Ht _ _ _ Hl).
    + by case_bool_decide.
    + rewrite bool_decide_eq_true_2; [done|].
      apply list_elem_of_omap. by exists (Future (Some tid)).
  - eexists. split; [exact He|]. split.
    + simpl. rewrite omap_app. simpl. by rewrite app_nil_r.
    + intros tid. change (EvRunning false :: ?a :: evs ++ ?b)
        with ([EvRunning false; a] ++ evs ++ b).
      rewrite !count_app. simpl.
      rewrite (count_zero_Forall (is_get_of tid) evs); [done|].
      eapply Forall_impl; [exact Hd|]. intros e. apply drain_event_not_get.
  - intros Hnil. unfold exec. rewrite (terminate_running_eq s Hr), Hnil.
    simpl. rewrite <- app_assoc. simpl.
    destruct s; simpl in *. by subst.
Qed.

(** C10: after [terminate] on a running client the pending list is
    empty and the flag is false; a wait is made for the valid entries
    only, so invalid entries are dropped without waiting, and a list of
    invalid entries alone is cleared with no wait at all. *)
Theorem terminate_empties_pending s :
  running_ s = true →
  value (terminate describe true) s = true ∧
  sources_res_ (exec (terminate describe true) s) = [] ∧
  running_ (exec (terminate describe true) s) = false ∧
  (∃ evs,
     trace (exec (terminate describe true) s) = trace s ++ evs ∧
     omap wait_tid evs = omap shared_state (sources_res_ s)) ∧
  (Forall (λ f, valid f = false) (sources_res_ s) →
   exec (terminate describe true) s
   = set_trace (trace s ++ [EvRunning false;
                            EvLog fatal (WaitingFor (length (sources_res_ s)));
                            EvPollStop (poll_ s)])
       (set_sources_res_ [] (set_running_ false s))).
Proof.
  intros Hr.
  destruct (terminate_running s Hr)
    as (Hv & Hr' & Hs & _ & _ & _ & evs & He & Hw & _).
  repeat split; try done.
  - eexists. split; [exact He|].
    simpl. rewrite omap_app. simpl. by rewrite app_nil_r.
  - intros Hinv. unfold exec. rewrite (terminate_running_eq s Hr).
    simpl. rewrite (remove_if_drain_invalid _ _ Hinv). simpl.
    by rewrite <- app_assoc.
Qed.

(** C6, as the code has it: [terminate] on a running client first
    stores false in the run flag, then logs and waits for the pending
    tasks, and last stops the event loop; the poll object is not
    released: [poll_] still holds it and no deleter runs. *)
Theorem terminate_order s :
  running_ s = true →
  ∃ evs,
    trace (exec (terminate describe true) s)
    = trace s ++ EvRunning false
        :: EvLog fatal (WaitingFor (length (sources_res_ s)))
        :: evs ++ [EvPollStop (poll_ s)] ∧
    omap wait_tid evs = omap shared_state (sources_res_ s) ∧
    Forall (λ e, is_drain_event e = true) evs ∧
    running_ (exec (terminate describe true) s) = false ∧
    sources_res_ (exec (terminate describe true) s) = [] ∧
    poll_ (exec (terminate describe true) s) = poll_ s ∧
    count is_poll_free
      (EvRunning false :: EvLog fatal (WaitingFor (length (sources_res_ s)))
       :: evs ++ [EvPollStop (poll_ s)]) = 0.
Proof.
  intros Hr.
  destruct (terminate_running s Hr)
    as (_ & Hr' & Hs & Hp & _ & _ & evs & He & Hw & Hd).
  exists evs. repeat split; try done.
  change (EvRunning false :: ?a :: evs ++ ?b)
    with ([EvRunning false; a] ++ evs ++ b).
  rewrite !count_app. simpl.
  rewrite (count_zero_Forall is_poll_free evs); [done|].
  eapply Forall_impl; [exact Hd|]. intros e. apply drain_event_not_poll_free.
Qed.

(** ** Tasks in flight stay in the pending list *)

Lemma tracked_new : tracked (MDNSClient_new (RtspSource := RtspSource)).
Proof. intros tid t H. done. Qed.

Lemma tracked_resolve r interface protocol event name type domain host_name
    address port flags s :
  tracked s →
  tracked (exec (resolve_callback from_string avahi_address_snprint r
                   interface protocol event name type domain host_name
                   address port flags) s).
Proof.
  intros Htr. destruct event.
  - destruct (ec_failed (from_string (avahi_address_snprint address)))
      eqn:Hec.
    + rewrite (resolve_found_ineligible _ _ _ _ _ _ _ _ _ _ _ Hec).
      exact Htr.
    + rewrite (resolve_found_eligible _ _ _ _ _ _ _ _ _ _ _ Hec).
      intros tid t. simpl. intros Hl. apply elem_of_app.
      destruct (decide (tid < length (tasks s))) as [Hlt|Hge].
      * left. rewrite lookup_app_l in Hl by done. by eapply Htr.
      * right. apply lookup_lt_Some in Hl as Hlen.
        rewrite length_app in Hlen. simpl in Hlen.
        replace tid with (length (tasks s)) by lia.
        by apply list_elem_of_singleton.
  - rewrite resolve_failure. exact Htr.
Qed.

Lemma tracked_complete tid s :
  tracked s → tracked (exec (complete describe tid) s).
Proof.
  intros Htr. unfold exec, complete.
  destruct (tasks s !! tid) as [[t0 [|]]|] eqn:Ht; simpl; try done.
  intros j t. simpl. intros Hl. destruct (decide (j = tid)) as [->|Hne].
  - rewrite list_lookup_insert_eq in Hl by by eapply lookup_lt_Some.
    congruence.
  - rewrite list_lookup_insert_ne in Hl by done. by eapply Htr.
Qed.

Lemma tracked_process_results USE_AVAHI s :
  tracked s → tracked (exec (process_results describe USE_AVAHI) s).
Proof.
  intros Htr. destruct USE_AVAHI; [|done].
  unfold exec, process_results, bind, load. simpl.
  rewrite remove_if_reap. simpl. intros tid t Hl. simpl in *.
  apply list_elem_of_In, List.filter_In. split.
  - apply list_elem_of_In. by eapply Htr.
  - apply negb_true_iff, in_flight_not_reapable.
    unfold in_flight. simpl. by rewrite Hl.
Qed.

Lemma tracked_init USE_AVAHI env s :
  tracked s → tracked (exec (init USE_AVAHI env) s).
Proof.
  intros Htr. unfold init, reset_poll, reset_client. run.
  destruct s as [run src [op|] [oc|] b ts tr]; simpl in *;
    destruct run, USE_AVAHI; simpl; try exact Htr;
    destruct (threaded_poll_new env); simpl; try exact Htr;
    destruct (client_new env); simpl; exact Htr.
Qed.

(** With every task in flight on the pending list, no task at all is
    left in flight when [terminate] returns. *)
Lemma terminate_all_completed s tid t st :
  tracked s → running_ s = true →
  tasks s !! tid = Some (t, st) →
  tasks (exec (terminate describe true) s) !! tid = Some (t, Completed).
Proof.
  intros Htr Hr Hl.
  destruct (terminate_running s Hr) as (_ & _ & _ & _ & _ & Ht & _).
  rewrite (Ht _ _ _ Hl). destruct st; [|by case_bool_decide].
  rewrite bool_decide_eq_true_2; [done|].
  apply list_elem_of_omap. exists (Future (Some tid)). split; [|done].
  by eapply Htr.
Qed.

(** ** Failure of init *)

(** C7, as the code has it: when an allocation fails in a client that is
    not running, [init] returns false and the flag stays false.  If the
    poll object cannot be made, [poll_] is left null.  If the client
    cannot be made, [client_] is left null and the poll object made by
    this call is kept in [poll_]: the only deleters that run are those
    of the handles held before the call. *)
Theorem init_failure_keeps_poll env s :
  running_ s = false →
  threaded_poll_new env = None ∨ client_new env = None →
  value (init true env) s = false ∧
  running_ (exec (init true env) s) = false ∧
  sources_res_ (exec (init true env) s) = sources_res_ s ∧
  tasks (exec (init true env) s) = tasks s ∧
  match threaded_poll_new env with
  | None =>
      poll_ (exec (init true env) s) = None ∧
      client_ (exec (init true env) s) = client_ s ∧
      trace (exec (init true env) s)
      = trace s ++ [EvPollNew None] ++ old_poll (poll_ s)
                ++ [EvLog fatal PollCreateFailed]
  | Some p =>
      poll_ (exec (init true env) s) = Some p ∧
      client_ (exec (init true env) s) = None ∧
      trace (exec (init true env) s)
      = trace s ++ [EvPollNew (Some p)] ++ old_poll (poll_ s)
                ++ [EvClientNew (Some p) None] ++ old_client (client_ s)
                ++ [EvLog fatal (ClientCreateFailed (client_new_error env))]
  end.
Proof.
  intros Hr Hfail. unfold init, reset_poll, reset_client. run. rewrite Hr.
  destruct s as [run src [op|] [oc|] b ts tr]; simpl in *;
    destruct (threaded_poll_new env) as [p|] eqn:Hp; simpl;
    try (destruct Hfail as [|Hc]; [done|]; rewrite Hc; simpl);
    repeat split; try done; by rewrite <- !app_assoc.
Qed.

(** * Further properties *)

(** ** Repeating and reordering operations *)

Lemma process_results_eq s :
  exec (process_results describe true) s
  = set_sources_res_
      (List.filter (λ f, negb (reapable s f)) (sources_res_ s))
      (set_trace (trace s ++ map EvGet (ready_tids s (sources_res_ s))) s).
Proof.
  unfold exec, process_results, bind, load. simpl. by rewrite remove_if_reap.
Qed.

Lemma filter_idem {A} (p : A → bool) l :
  List.filter p (List.filter p l) = List.filter p l.
Proof.
  induction l as [|x l IH]; simpl; [done|].
  destruct (p x) eqn:Hp; simpl; [|done]. by rewrite Hp, IH.
Qed.

Lemma ready_tids_filtered s l :
  ready_tids s (List.filter (λ f, negb (reapable s f)) l) = [].
Proof.
  unfold ready_tids. induction l as [|f l IH]; simpl; [done|].
  destruct (reapable s f) eqn:Hf; simpl; [done|].
  apply orb_false_iff in Hf as [_ Hf]. by rewrite Hf.
Qed.

(** A second [process_results] right after one, with no task completing
    in between, changes nothing: the first call has retrieved and erased
    all there was to reap. *)
Theorem process_results_twice USE_AVAHI s :
  process_results describe USE_AVAHI
    (exec (process_results describe USE_AVAHI) s)
  = (tt, exec (process_results describe USE_AVAHI) s).
Proof.
  destruct USE_AVAHI; [|done].
  rewrite (surjective_pairing (process_results _ _ _)).
  f_equal; [by destruct (_.1)|].
  change (process_results describe true ?x).2
    with (exec (process_results describe true) x).
  rewrite (process_results_eq (exec _ s)), (process_results_eq s). simpl.
  change (reapable (set_sources_res_ ?l (set_trace ?t s)))
    with (reapable s).
  change (ready_tids (set_sources_res_ ?l (set_trace ?t s)))
    with (ready_tids s).
  by rewrite filter_idem, ready_tids_filtered, app_nil_r.
Qed.

Lemma terminate_idle USE_AVAHI s :
  running_ s = false → terminate describe USE_AVAHI s = (true, s).
Proof. intros Hr. unfold terminate. run. by rewrite Hr. Qed.

Lemma terminate_stops USE_AVAHI s :
  running_ (exec (terminate describe USE_AVAHI) s) = false.
Proof.
  destruct (running_ s) eqn:Hr.
  - destruct USE_AVAHI.
    + by destruct (terminate_running s Hr) as (_ & H & _).
    + unfold exec. by rewrite terminate_no_avahi.
  - unfold exec. by rewrite terminate_idle.
Qed.

(** A second [terminate] after one changes nothing, whatever the state
    the first one was called in. *)
Theorem terminate_twice USE_AVAHI s :
  terminate describe USE_AVAHI (exec (terminate describe USE_AVAHI) s)
  = (true, exec (terminate describe USE_AVAHI) s).
Proof. apply terminate_idle, terminate_stops. Qed.


(** ** What the handlers ask of the event loop and of the host *)

(** What a handler does to the client itself. *)
Lemma browse_callback_mdns b interface protocol event name type domain flags
    resolver_new (sys : System RtspSource) :
  mdns (browse_callback b interface protocol event name type domain flags
          resolver_new sys).2
  = match event with
    | AVAHI_BROWSER_REMOVE =>
        set_trace (trace (mdns sys) ++ [EvRemoveSource name domain]) (mdns sys)
    | _ => mdns sys
    end.
Proof. by destruct event, resolver_new. Qed.

Lemma client_callback_mdns client state interface_idx browser_new
    (sys : System RtspSource) :
  mdns (client_callback client state interface_idx browser_new sys).2
  = match state with
    | AVAHI_CLIENT_S_REGISTERING | AVAHI_CLIENT_S_RUNNING
    | AVAHI_CLIENT_S_COLLISION => set_sb_ browser_new (mdns sys)
    | _ => mdns sys
    end.
Proof. by destruct state, browser_new. Qed.

(** The browse handler asks the event loop to quit on a browser failure
    and on no other event: a resolver that cannot be started is only
    logged.  It calls [on_remove_rtsp_source(name, domain)] once on a
    removal and makes no host call on any other event; it never touches
    the pending list or the task table. *)
Theorem browse_callback_quits_on_failure_only b interface protocol event
    name type domain flags resolver_new (sys : System RtspSource) :
  let sys' := (browse_callback b interface protocol event name type domain
                 flags resolver_new sys).2 in
  (∃ acts,
     actions sys' = actions sys ++ acts ∧
     count_actions is_poll_quit acts
     = (match event with AVAHI_BROWSER_FAILURE => 1 | _ => 0 end)) ∧
  trace (mdns sys')
  = trace (mdns sys) ++ (match event with
                         | AVAHI_BROWSER_REMOVE => [EvRemoveSource name domain]
                         | _ => []
                         end) ∧
  sources_res_ (mdns sys') = sources_res_ (mdns sys) ∧
  tasks (mdns sys') = tasks (mdns sys).
Proof.
  destruct event, resolver_new; simpl; rewrite ?app_nil_r;
    (split; [eexists; split; [rewrite <- ?app_assoc; reflexivity|done]|done]).
Qed.

(** The client handler asks the event loop to quit when the connection
    has failed or when the service browser cannot be created, and in no
    other case; while connecting it does nothing at all. *)
Theorem client_callback_quits_when_fatal client state interface_idx
    browser_new (sys : System RtspSource) :
  let sys' := (client_callback client state interface_idx browser_new sys).2 in
  (∃ acts,
     actions sys' = actions sys ++ acts ∧
     count_actions is_poll_quit acts
     = (match state, browser_new with
        | AVAHI_CLIENT_FAILURE, _ => 1
        | AVAHI_CLIENT_CONNECTING, _ => 0
        | _, None => 1
        | _, Some _ => 0
        end)) ∧
  client_callback client AVAHI_CLIENT_CONNECTING interface_idx browser_new sys
  = (tt, sys).
Proof.
  split; [|done].
  destruct state, browser_new, sys as [m acts0]; simpl;
    destruct (sb_ m); simpl;
    (eexists; split;
     [first [rewrite <- ?app_assoc; reflexivity | symmetry; apply app_nil_r]
     |done]).
Qed.

(** ** What each operation does to the client *)

Lemma init_eq env s :
  exec (init true env) s
  = if running_ s then s
    else match threaded_poll_new env with
         | None =>
             set_trace (trace s ++ EvPollNew None :: old_poll (poll_ s)
                                ++ [EvLog fatal PollCreateFailed])
               (set_poll_ None s)
         | Some p =>
             match client_new env with
             | None =>
                 set_trace
                   (trace s ++ EvPollNew (Some p) :: old_poll (poll_ s)
                            ++ EvClientNew (Some p) None
                            :: old_client (client_ s)
                            ++ [EvLog fatal
                                  (ClientCreateFailed (client_new_error env))])
                   (set_client_ None (set_poll_ (Some p) s))
             | Some c =>
                 set_trace
                   (trace s ++ EvPollNew (Some p) :: old_poll (poll_ s)
                            ++ EvClientNew (Some p) (Some c)
                            :: old_client (client_ s)
                            ++ [EvPollStart (Some p); EvRunning true])
                   (set_running_ true
                      (set_client_ (Some c) (set_poll_ (Some p) s)))
             end
         end.
Proof.
  unfold init, reset_poll, reset_client. run.
  destruct s as [[|] src [op|] [oc|] b ts tr]; simpl; try done;
    destruct (threaded_poll_new env) as [p|]; simpl;
    rewrite <- ?app_assoc; try done;
    destruct (client_new env) as [c|]; simpl;
    rewrite <- ?app_assoc; done.
Qed.

Lemma wait_eq tid s :
  exec (wait describe (Future (Some tid))) s
  = set_trace (trace (exec (complete describe tid) s) ++ [EvWait tid])
      (exec (complete describe tid) s).
Proof.
  unfold exec, wait, bind, emit. simpl. by destruct (complete describe tid s).
Qed.

Lemma complete_missing tid s :
  tasks s !! tid = None → exec (complete describe tid) s = s.
Proof. intros H. unfold exec, complete. by rewrite H. Qed.

(** What holds before a drain and is kept by each wait holds after it. *)
Lemma remove_if_drain_preserves (P : State RtspSource → Prop) :
  (∀ tid s, P s → P (exec (wait describe (Future (Some tid))) s)) →
  ∀ l s, P s → P (remove_if (drain_pred describe) l s).2.
Proof.
  intros Hw. induction l as [|[[tid|]] l IH]; intros s Hs; [done| |];
    rewrite remove_if_cons, drain_pred_step; simpl; auto.
Qed.

Lemma terminate_eq s :
  exec (terminate describe true) s
  = if running_ s then
      let s0 := set_trace
                  (trace s
                   ++ [EvRunning false;
                       EvLog fatal (WaitingFor (length (sources_res_ s)))])
                  (set_running_ false s) in
      let s1 := (remove_if (drain_pred describe) (sources_res_ s) s0).2 in
      set_trace (trace s1 ++ [EvPollStop (poll_ s)]) (set_sources_res_ [] s1)
    else s.
Proof.
  destruct (running_ s) eqn:Hr.
  - unfold exec. rewrite (terminate_running_eq s Hr). simpl.
    destruct (remove_if_drain (sources_res_ s)
                (set_trace
                   (trace s
                    ++ [EvRunning false;
                        EvLog fatal (WaitingFor (length (sources_res_ s)))])
                   (set_running_ false s)))
      as [Hnil (_ & _ & Hp & _)].
    by rewrite Hnil, Hp.
  - unfold exec. by rewrite terminate_idle.
Qed.

(** ** Runs *)

Local Abbreviation step' := (step describe from_string avahi_address_snprint).
Local Abbreviation run' := (run describe from_string avahi_address_snprint).

Lemma mdns_core {A} (m : M RtspSource A) (sys : System RtspSource) :
  mdns (core m sys).2 = exec m (mdns sys).
Proof. unfold core, exec. by destruct (m (mdns sys)). Qed.

Lemma run_snoc ops op : run' (ops ++ [op]) = step' op (run' ops).
Proof. unfold run. by rewrite foldl_snoc. Qed.

(** A property of the client that holds for a new client and is kept by
    the three member functions, by the completion of a task, by the
    resolve handler, by a call of [on_remove_rtsp_source] and by a change
    of [sb_] holds after every run. *)
Lemma run_invariant (P : State RtspSource → Prop) :
  P MDNSClient_new →
  (∀ env s, P s → P (exec (init true env) s)) →
  (∀ s, P s → P (exec (process_results describe true) s)) →
  (∀ s, P s → P (exec (terminate describe true) s)) →
  (∀ tid s, P s → P (exec (complete describe tid) s)) →
  (∀ r interface protocol event name type domain host_name address port
     flags s,
     P s →
     P (exec (resolve_callback from_string avahi_address_snprint r interface
                protocol event name type domain host_name address port flags)
          s)) →
  (∀ name domain s,
     P s → P (set_trace (trace s ++ [EvRemoveSource name domain]) s)) →
  (∀ b s, P s → P (set_sb_ b s)) →
  ∀ ops, P (mdns (run' ops)).
Proof.
  intros Hnew Hinit Hproc Hterm Hcomp Hres Hrem Hsb.
  induction ops as [|op ops IH] using rev_ind; [done|].
  rewrite run_snoc. destruct op; simpl; rewrite ?mdns_core; auto.
  - rewrite browse_callback_mdns. destruct event; auto.
  - rewrite client_callback_mdns. destruct state; auto.
Qed.

(** ** The trace accounts for the task table *)

Lemma count_cons (p : Event RtspSource → bool) e l :
  count p (e :: l) = (if p e then 1 else 0) + count p l.
Proof. unfold count. simpl. by destruct (p e). Qed.

Lemma count_gets_zero (p : Event RtspSource → bool) tids :
  (∀ tid, p (EvGet tid) = false) → count p (map EvGet tids) = 0.
Proof.
  intros Hp. apply count_zero_Forall, Forall_forall. intros e.
  rewrite list_elem_of_In, List.in_map_iff. intros (tid & <- & _). apply Hp.
Qed.

Lemma count_drain_zero (p : Event RtspSource → bool) evs :
  (∀ e, is_drain_event e = true → p e = false) →
  Forall (λ e, is_drain_event e = true) evs → count p evs = 0.
Proof.
  intros Hp Hd. apply count_zero_Forall.
  eapply Forall_impl; [exact Hd|]. exact Hp.
Qed.

Lemma filter_insert_length {A} (p : A → bool) l i x y :
  l !! i = Some y →
  length (List.filter p (<[i:=x]> l)) + (if p y then 1 else 0)
  = length (List.filter p l) + (if p x then 1 else 0).
Proof.
  revert i. induction l as [|z l IH]; intros [|i] Hl; simpl in *; try done.
  - injection Hl as ->. destruct (p x), (p y); simpl; lia.
  - specialize (IH i Hl). destruct (p z); simpl; lia.
Qed.

Lemma accounted_ext s s' evs :
  accounted describe s →
  tasks s' = tasks s → trace s' = trace s ++ evs →
  count is_async evs = 0 → count is_describe evs = 0 →
  count is_new_source evs = 0 →
  accounted describe s'.
Proof.
  intros [Ha Hd Hn] Ht He Ha0 Hd0 Hn0.
  split; rewrite He, Ht, count_app; lia.
Qed.

Lemma count_task_body t :
  count is_async (task_body describe t) = 0 ∧
  count is_describe (task_body describe t) = 1 ∧
  count is_new_source (task_body describe t)
  = (if succeeded describe (t, Completed) then 1 else 0).
Proof.
  unfold task_body, succeeded. simpl.
  by destruct (describe _ _ _) as [[|] src].
Qed.

Lemma accounted_complete tid s :
  accounted describe s → accounted describe (exec (complete describe tid) s).
Proof.
  intros Hacc. destruct (tasks s !! tid) as [[t [|]]|] eqn:Ht.
  - rewrite (complete_in_flight tid t s Ht). destruct Hacc as [Ha Hd Hn].
    pose proof (filter_insert_length completed _ _ (t, Completed) _ Ht) as Hc.
    pose proof (filter_insert_length (succeeded describe) _ _ (t, Completed)
                  _ Ht) as Hs.
    change (succeeded describe (t, InFlight)) with false in Hs.
    change (completed (t, InFlight)) with false in Hc.
    change (completed (t, Completed)) with true in Hc.
    destruct (count_task_body t) as (Hb1 & Hb2 & Hb3).
    cbv iota in Hc, Hs.
    split; simpl; rewrite count_app.
    + rewrite length_insert. lia.
    + lia.
    + destruct (succeeded describe (t, Completed)); lia.
  - by rewrite (complete_completed tid t s Ht).
  - by rewrite (complete_missing tid s Ht).
Qed.

Lemma accounted_wait tid s :
  accounted describe s →
  accounted describe (exec (wait describe (Future (Some tid))) s).
Proof.
  intros Hacc. rewrite wait_eq.
  by eapply (accounted_ext _ _ [EvWait tid]); [apply accounted_complete|..].
Qed.

Lemma accounted_run ops : accounted describe (mdns (run' ops)).
Proof.
  apply run_invariant.
  - by split.
  - intros env s Hacc. rewrite init_eq. destruct (running_ s); [done|].
    destruct (threaded_poll_new env), (client_new env);
      (eapply accounted_ext; [exact Hacc|done|done|..]);
      by destruct (poll_ s), (client_ s).
  - intros s Hacc. rewrite process_results_eq.
    eapply accounted_ext; [exact Hacc|done|done|..];
      by apply count_gets_zero.
  - intros s Hacc. rewrite terminate_eq. destruct (running_ s); [|done].
    simpl. set (s1 := (remove_if _ _ _).2).
    assert (Hs1 : accounted describe s1).
    { apply remove_if_drain_preserves; [intros; by apply accounted_wait|].
      by eapply (accounted_ext s _ [_; _]). }
    by eapply (accounted_ext s1 _ [_]).
  - intros tid s. apply accounted_complete.
  - intros r interface protocol event name type domain host_name address port
      flags s Hacc. destruct event.
    + destruct (ec_failed (from_string (avahi_address_snprint address)))
        eqn:Hec.
      * rewrite (resolve_found_ineligible _ _ _ _ _ _ _ _ _ _ _ Hec).
        by eapply (accounted_ext s _ [_; _; _]).
      * rewrite (resolve_found_eligible _ _ _ _ _ _ _ _ _ _ _ Hec).
        destruct Hacc as [Ha Hd Hn].
        split; simpl; rewrite count_app, ?length_app, ?List.filter_app,
          ?length_app; simpl; unfold count in *; simpl; lia.
    + rewrite resolve_failure. by eapply (accounted_ext s _ [_; _]).
  - intros name domain s Hacc. by eapply (accounted_ext s _ [_]).
  - intros b s Hacc. by destruct Hacc.
Qed.

(** ** The handles are accounted for *)

Lemma handles_ext s s' evs :
  handles_ok s →
  poll_ s' = poll_ s → client_ s' = client_ s →
  (running_ s' = true → running_ s = true) →
  trace s' = trace s ++ evs →
  count is_poll_acquired evs = 0 → count is_poll_free evs = 0 →
  count is_client_acquired evs = 0 → count is_client_free evs = 0 →
  count is_null_poll_call evs = 0 →
  handles_ok s'.
Proof.
  intros [Hp Hc Hr Hn] Hp' Hc' Hr' He H1 H2 H3 H4 H5.
  split; rewrite ?He, ?Hp', ?Hc', ?count_app; try lia.
  intros Hrun. by apply Hr, Hr'.
Qed.

Lemma handles_init env s :
  handles_ok s → handles_ok (exec (init true env) s).
Proof.
  intros Hok. rewrite init_eq.
  destruct (running_ s) eqn:Hrun; [done|]. destruct Hok as [Hp Hc Hr Hn].
  destruct (threaded_poll_new env) as [p|], (client_new env) as [c|];
    split; simpl; rewrite ?count_app;
    destruct (poll_ s), (client_ s); simpl in *;
    unfold count in *; simpl; try lia; try done; eauto; congruence.
Qed.

Lemma handles_terminate s :
  handles_ok s → handles_ok (exec (terminate describe true) s).
Proof.
  intros Hok. destruct (running_ s) eqn:Hrun.
  - destruct (terminate_running s Hrun)
      as (_ & Hr' & _ & Hp' & Hc' & _ & evs & He & _ & Hd).
    destruct (running_holds s Hok Hrun) as [[p Hp] _].
    eapply handles_ext; [exact Hok|done|done|congruence|exact He|..];
      change (EvRunning false :: ?a :: evs ++ ?b)
        with ([EvRunning false; a] ++ evs ++ b);
      rewrite !count_app, Hp;
      (rewrite (count_drain_zero _ evs); [done|by intros []|done]).
  - unfold exec. by rewrite terminate_idle.
Qed.

Lemma handles_complete tid s :
  handles_ok s → handles_ok (exec (complete describe tid) s).
Proof.
  intros Hok. destruct (tasks s !! tid) as [[t [|]]|] eqn:Ht.
  - rewrite (complete_in_flight tid t s Ht).
    eapply handles_ext; [exact Hok|done..| | | | |];
      unfold task_body; by destruct (describe _ _ _) as [[|] src].
  - by rewrite (complete_completed tid t s Ht).
  - by rewrite (complete_missing tid s Ht).
Qed.

Lemma handles_run ops : handles_ok (mdns (run' ops)).
Proof.
  apply run_invariant.
  - by split.
  - intros env s. apply handles_init.
  - intros s Hok. rewrite process_results_eq.
    eapply handles_ext; [exact Hok|done..| | | | |];
      by apply count_gets_zero.
  - intros s. apply handles_terminate.
  - intros tid s. apply handles_complete.
  - intros r interface protocol event name type domain host_name address port
      flags s Hok. destruct event.
    + destruct (ec_failed (from_string (avahi_address_snprint address)))
        eqn:Hec.
      * rewrite (resolve_found_ineligible _ _ _ _ _ _ _ _ _ _ _ Hec).
        by eapply (handles_ext s _ [_; _; _]).
      * rewrite (resolve_found_eligible _ _ _ _ _ _ _ _ _ _ _ Hec).
        by eapply (handles_ext s _ [_; _; _; _]).
    + rewrite resolve_failure. by eapply (handles_ext s _ [_; _]).
  - intros name domain s Hok. by eapply (handles_ext s _ [_]).
  - intros b s Hok. by destruct Hok.
Qed.





(** ** The pending list stays well formed *)

Lemma count_get_notin tid tids :
  tid ∉ tids →
  count (is_get_of (RtspSource := RtspSource) tid) (map EvGet tids) = 0.
Proof.
  intros Hnin. apply count_zero_Forall, Forall_forall. intros e.
  rewrite list_elem_of_In, List.in_map_iff. intros (t & <- & Hin). simpl.
  apply Nat.eqb_neq. intros ->. by apply Hnin, list_elem_of_In.
Qed.

Lemma count_get_nodup tid tids :
  NoDup tids →
  (count (is_get_of (RtspSource := RtspSource) tid) (map EvGet tids) ≤ 1)%nat.
Proof.
  induction 1 as [|t tids Hnin _ IH]; simpl; [unfold count; simpl; lia|].
  rewrite count_cons. simpl. destruct (Nat.eqb_spec t tid) as [->|Hne].
  - rewrite (count_get_notin tid tids Hnin). lia.
  - lia.
Qed.

Lemma ready_tids_omap s l :
  ready_tids s l = omap shared_state (List.filter (is_ready s) l).
Proof.
  unfold ready_tids. induction l as [|f l IH]; simpl; [done|].
  destruct (is_ready s f); simpl; [|exact IH].
  destruct (shared_state f); [f_equal|]; exact IH.
Qed.

Lemma elem_of_omap_filter (p : future → bool) l tid :
  tid ∈ omap shared_state (List.filter p l) ↔
  ∃ f, f ∈ l ∧ p f = true ∧ shared_state f = Some tid.
Proof.
  rewrite list_elem_of_omap. split.
  - intros (f & Hin & Hs). rewrite list_elem_of_In, List.filter_In in Hin.
    destruct Hin as [Hin Hp]. exists f. by rewrite list_elem_of_In.
  - intros (f & Hin & Hp & Hs). exists f. split; [|done].
    rewrite list_elem_of_In, List.filter_In. by rewrite <- list_elem_of_In.
Qed.

Lemma NoDup_omap_filter (p : future → bool) l :
  NoDup (omap shared_state l) → NoDup (omap shared_state (List.filter p l)).
Proof.
  induction l as [|[[tid|]] l IH]; simpl; [done| |].
  - intros Hnd. apply NoDup_cons in Hnd as [Hnin Hnd].
    destruct (p _); simpl; [|by apply IH].
    apply NoDup_cons. split; [|by apply IH].
    intros Hin. apply Hnin. apply elem_of_omap_filter in Hin
      as (f & Hf & _ & Hs).
    apply list_elem_of_omap. by exists f.
  - intros Hnd. destruct (p _); simpl; by apply IH.
Qed.

Lemma pending_ext s s' evs :
  pending_ok s →
  sources_res_ s' = sources_res_ s → tasks s' = tasks s →
  trace s' = trace s ++ evs →
  (∀ tid, count (is_get_of tid) evs = 0) →
  pending_ok s'.
Proof.
  intros [Hv Hb Hn Ht Hg Hf Ho] Hs' Ht' He Hz.
  split; unfold pending_tids, tracked in *; rewrite ?Hs', ?Ht'; try done;
    intros tid; rewrite He, count_app, Hz, Nat.add_0_r; auto.
Qed.

Lemma pending_complete tid s :
  pending_ok s → pending_ok (exec (complete describe tid) s).
Proof.
  intros Hok.
  pose proof (tracked_complete tid s (pending_tracked s Hok)) as Htr.
  destruct (tasks s !! tid) as [[t [|]]|] eqn:Ht.
  - rewrite (complete_in_flight tid t s Ht) in *.
    destruct Hok as [Hv Hb Hn _ Hg Hf Ho].
    assert (Hz : ∀ j, count (is_get_of j) (task_body describe t) = 0).
    { intros j. unfold task_body. by destruct (describe _ _ _) as [[|] src]. }
    split; unfold pending_tids in *; simpl; rewrite ?length_insert; try done;
      intros j; rewrite count_app, Hz, Nat.add_0_r; auto.
  - by rewrite (complete_completed tid t s Ht).
  - by rewrite (complete_missing tid s Ht).
Qed.

Lemma pending_resolve r interface protocol event name type domain host_name
    address port flags s :
  pending_ok s →
  pending_ok (exec (resolve_callback from_string avahi_address_snprint r
                      interface protocol event name type domain host_name
                      address port flags) s).
Proof.
  intros Hok.
  pose proof (tracked_resolve r interface protocol event name type domain
                host_name address port flags s (pending_tracked s Hok)) as Htr.
  destruct event.
  - destruct (ec_failed (from_string (avahi_address_snprint address))) eqn:Hec.
    + rewrite (resolve_found_ineligible _ _ _ _ _ _ _ _ _ _ _ Hec).
      by eapply (pending_ext s _ [_; _; _]).
    + rewrite (resolve_found_eligible _ _ _ _ _ _ _ _ _ _ _ Hec) in *.
      destruct Hok as [Hv Hb Hn _ Hg Hf Ho].
      split; unfold pending_tids in *; simpl; try done.
      * apply Forall_app. split; [done|]. by repeat constructor.
      * rewrite omap_app, length_app. simpl. apply Forall_app. split.
        -- eapply Forall_impl; [exact Hb|]. simpl. lia.
        -- repeat constructor. lia.
      * rewrite omap_app. simpl. apply NoDup_app. split; [done|]. split.
        -- intros x Hx Hx'. apply list_elem_of_singleton in Hx'. subst x.
           rewrite Forall_forall in Hb. specialize (Hb _ Hx). lia.
        -- apply NoDup_singleton.
      * intros tid. rewrite omap_app, elem_of_app, count_app. simpl.
        intros [Hin|Hin%list_elem_of_singleton].
        -- rewrite (Hg tid Hin). done.
        -- subst tid. rewrite Hf by done. done.
      * intros tid. rewrite length_app, count_app. simpl. intros Hle.
        rewrite Hf by lia. done.
      * intros tid. rewrite count_app. change (count _ [_; _; _; _]) with 0.
        rewrite Nat.add_0_r. apply Ho.
  - rewrite resolve_failure. by eapply (pending_ext s _ [_; _]).
Qed.

Lemma pending_process_results s :
  pending_ok s → pending_ok (exec (process_results describe true) s).
Proof.
  intros Hok.
  pose proof (tracked_process_results true s (pending_tracked s Hok)) as Htr.
  rewrite process_results_eq in *.
  destruct Hok as [Hv Hb Hn _ Hg Hf Ho]. unfold pending_tids in *.
  assert (Hsub : ∀ tid p, tid ∈ omap shared_state
                            (List.filter p (sources_res_ s)) →
                          tid ∈ omap shared_state (sources_res_ s)).
  { intros tid p (f & Hin & _ & Hs)%elem_of_omap_filter.
    apply list_elem_of_omap. by exists f. }
  assert (Hready : ∀ tid, tid ∈ ready_tids s (sources_res_ s) →
                          tid ∈ omap shared_state (sources_res_ s)).
  { intros tid. rewrite ready_tids_omap. apply Hsub. }
  assert (Hkept : ∀ tid,
             tid ∈ omap shared_state
                     (List.filter (λ f, negb (reapable s f)) (sources_res_ s)) →
             tid ∉ ready_tids s (sources_res_ s)).
  { intros tid (f & _ & Hp & Hs)%elem_of_omap_filter.
    rewrite ready_tids_omap. intros (f' & _ & Hp' & Hs')%elem_of_omap_filter.
    destruct f as [o], f' as [o']. simpl in *. subst o o'.
    apply negb_true_iff, orb_false_iff in Hp as [_ Hp]. congruence. }
  split; simpl; try done.
  - apply Forall_forall. intros f Hin%list_elem_of_In%List.filter_In.
    rewrite Forall_forall in Hv. apply Hv, list_elem_of_In, Hin.
  - apply Forall_forall. intros tid Hin.
    rewrite Forall_forall in Hb. exact (Hb tid (Hsub tid _ Hin)).
  - by apply NoDup_omap_filter.
  - intros tid Hin. rewrite count_app, (Hg tid (Hsub tid _ Hin)).
    by rewrite (count_get_notin tid _ (Hkept tid Hin)).
  - intros tid Hle. rewrite count_app, (Hf tid Hle).
    rewrite count_get_notin; [done|]. intros Hin%Hready.
    rewrite Forall_forall in Hb. specialize (Hb _ Hin). lia.
  - intros tid. rewrite count_app.
    destruct (decide (tid ∈ ready_tids s (sources_res_ s))) as [Hin|Hnin].
    + rewrite (Hg tid) by by apply Hready. simpl.
      apply count_get_nodup. rewrite ready_tids_omap.
      by apply NoDup_omap_filter.
    + rewrite (count_get_notin tid _ Hnin), Nat.add_0_r. apply Ho.
Qed.

Lemma terminate_length s :
  length (tasks (exec (terminate describe true) s)) = length (tasks s).
Proof.
  rewrite terminate_eq. destruct (running_ s); [|done]. simpl.
  apply (remove_if_drain_preserves
           (λ s', length (tasks s') = length (tasks s))); [|done].
  intros tid s' Hs'. rewrite wait_eq. simpl. rewrite <- Hs'.
  unfold exec, complete. destruct (tasks s' !! tid) as [[t [|]]|]; simpl;
    by rewrite ?length_insert.
Qed.

Lemma terminate_none_in_flight s tid t :
  tracked s → running_ s = true →
  tasks (exec (terminate describe true) s) !! tid ≠ Some (t, InFlight).
Proof.
  intros Htr Hr Hl.
  assert (Hlt : (tid < length (tasks s))%nat).
  { rewrite <- terminate_length. by eapply lookup_lt_Some. }
  apply lookup_lt_is_Some in Hlt as [[t0 st0] Hl0].
  rewrite (terminate_all_completed s tid t0 st0 Htr Hr Hl0) in Hl. done.
Qed.

Lemma pending_terminate s :
  pending_ok s → pending_ok (exec (terminate describe true) s).
Proof.
  intros Hok. destruct (running_ s) eqn:Hr.
  - pose proof (terminate_length s) as Hlen.
    pose proof (λ tid t, terminate_none_in_flight s tid t
                           (pending_tracked s Hok) Hr) as Hnone.
    destruct (terminate_running s Hr)
      as (_ & _ & Hs & _ & _ & _ & evs & He & _ & Hd).
    assert (Hz : ∀ tid,
               count (is_get_of tid)
                 (EvRunning false
                  :: EvLog fatal (WaitingFor (length (sources_res_ s)))
                  :: evs ++ [EvPollStop (poll_ s)]) = 0).
    { intros tid. change (EvRunning false :: ?a :: evs ++ ?b)
        with ([EvRunning false; a] ++ evs ++ b).
      rewrite !count_app.
      rewrite (count_drain_zero _ evs); [done| |done].
      intros e. apply drain_event_not_get. }
    destruct Hok as [Hv Hb Hn _ Hg Hf Ho].
    split; unfold pending_tids, tracked; rewrite ?Hs, ?Hlen; simpl;
      try done; try by constructor.
    + intros tid t Hl. by apply Hnone in Hl.
    + intros tid Hin. by apply elem_of_nil in Hin.
    + intros tid Hle. rewrite He, count_app, Hz, Nat.add_0_r. by apply Hf.
    + intros tid. rewrite He, count_app, Hz, Nat.add_0_r. apply Ho.
  - unfold exec. by rewrite terminate_idle.
Qed.

Lemma pending_run ops : pending_ok (mdns (run' ops)).
Proof.
  apply run_invariant.
  - split; try done; by constructor.
  - intros env s Hok. rewrite init_eq. destruct (running_ s); [done|].
    destruct (threaded_poll_new env), (client_new env);
      (eapply pending_ext; [exact Hok|done|done|done|]);
      intros tid; by destruct (poll_ s), (client_ s).
  - intros s. apply pending_process_results.
  - intros s. apply pending_terminate.
  - intros tid s. apply pending_complete.
  - intros r interface protocol event name type domain host_name address port
      flags s. apply pending_resolve.
  - intros name domain s Hok. by eapply (pending_ext s _ [_]).
  - intros b s [Hv Hb Hn Ht Hg Hf Ho]. by split.
Qed.

(** ** What holds after every run *)

(** After any run, every future of the pending list is valid and refers
    to a task of the table, and no two of them refer to the same task:
    the branches of [process_results] and [terminate] for an invalid
    future are never taken. *)
Theorem reachable_pending_well_formed ops :
  Forall (λ f, valid f = true) (sources_res_ (mdns (run' ops))) ∧
  Forall (λ tid, (tid < length (tasks (mdns (run' ops))))%nat)
    (pending_tids (mdns (run' ops))) ∧
  NoDup (pending_tids (mdns (run' ops))).
Proof. by destruct (pending_run ops). Qed.

(** After any run, no result has been retrieved twice: [get] has been
    called at most once for each task, and not at all for a task whose
    future is still in the pending list. *)
Theorem reachable_result_retrieved_once ops tid :
  (count (is_get_of tid) (trace (mdns (run' ops))) ≤ 1)%nat ∧
  (if bool_decide (tid ∈ pending_tids (mdns (run' ops)))
   then count (is_get_of tid) (trace (mdns (run' ops))) = 0 else True).
Proof.
  destruct (pending_run ops) as [_ _ _ _ Hg _ Ho]. split; [apply Ho|].
  case_bool_decide; [by apply Hg|done].
Qed.

(** After any run, every task in flight has its future in the pending
    list: no describe task is lost sight of. *)
Theorem reachable_in_flight_is_pending ops : tracked (mdns (run' ops)).
Proof. by destruct (pending_run ops). Qed.

(** After any run followed by [process_results], the pending list holds
    only futures of tasks still in flight: all that had completed has
    been reaped. *)
Theorem tick_keeps_in_flight_only ops :
  Forall (λ f, in_flight (mdns (run' (ops ++ [OpProcessResults]))) f = true)
    (sources_res_ (mdns (run' (ops ++ [OpProcessResults])))).
Proof.
  rewrite run_snoc. simpl. rewrite mdns_core, process_results_eq.
  destruct (pending_run ops) as [Hv Hb _ _ _ _ _].
  set (s := mdns (run' ops)) in *. simpl.
  apply Forall_forall. intros [[tid|]] Hin.
  - rewrite list_elem_of_In, List.filter_In in Hin. destruct Hin as [Hin Hp].
    apply negb_true_iff, orb_false_iff in Hp as [_ Hp].
    rewrite Forall_forall in Hb.
    assert (Hlt : (tid < length (tasks s))%nat).
    { apply Hb, list_elem_of_omap. exists (Future (Some tid)).
      by rewrite list_elem_of_In. }
    apply lookup_lt_is_Some in Hlt as [[t st] Hl].
    unfold in_flight, is_ready in *. simpl in *. rewrite Hl in *.
    by destruct st.
  - rewrite list_elem_of_In, List.filter_In in Hin. destruct Hin as [Hin _].
    rewrite Forall_forall in Hv. by apply list_elem_of_In, Hv in Hin.
Qed.

(** After any run that leaves the client running, [terminate] leaves no
    task in flight and an empty pending list. *)
Theorem terminate_leaves_no_task_in_flight ops :
  running_ (mdns (run' ops)) = true →
  Forall (λ x, completed x = true)
    (tasks (mdns (run' (ops ++ [OpTerminate])))) ∧
  sources_res_ (mdns (run' (ops ++ [OpTerminate]))) = [].
Proof.
  intros Hr. rewrite run_snoc. simpl. rewrite mdns_core.
  destruct (pending_run ops) as [_ _ _ Htr _ _ _]. split.
  - apply Forall_forall. intros [t st] Hin.
    apply list_elem_of_lookup in Hin as [tid Hl]. destruct st; [|done].
    by apply (terminate_none_in_flight _ _ _ Htr Hr) in Hl.
  - by destruct (terminate_running _ Hr) as (_ & _ & Hs & _).
Qed.

(** After any run, the trace accounts for the task table: one launch
    per task, one describe request per completed task (none repeated),
    and one [on_new_rtsp_source] per completed task whose describe
    request succeeded. *)
Theorem reachable_describe_accounting ops :
  count is_async (trace (mdns (run' ops)))
  = length (tasks (mdns (run' ops))) ∧
  count is_describe (trace (mdns (run' ops)))
  = length (List.filter completed (tasks (mdns (run' ops)))) ∧
  count is_new_source (trace (mdns (run' ops)))
  = length (List.filter (succeeded describe) (tasks (mdns (run' ops)))).
Proof. by destruct (accounted_run ops). Qed.


(** After any run, a running client holds a poll object and a client
    object, and the event loop has never been started or stopped on a
    null poll object. *)
Theorem reachable_running_holds_handles ops :
  running_ (mdns (run' ops)) = true →
  is_Some (poll_ (mdns (run' ops))) ∧ is_Some (client_ (mdns (run' ops))) ∧
  count is_null_poll_call (trace (mdns (run' ops))) = 0.
Proof.
  intros Hr. destruct (handles_run ops) as [_ _ Hh Hn].
  destruct (Hh Hr). done.
Qed.


(** ** The history holds the client's trace *)

Lemma trace_extends op (sys : System RtspSource) :
  ∃ evs, trace (mdns (step' op sys)) = trace (mdns sys) ++ evs.
Proof.
  destruct op; simpl; rewrite ?mdns_core.
  - rewrite init_eq. destruct (running_ (mdns sys));
      [exists []; by rewrite app_nil_r|].
    destruct (threaded_poll_new env), (client_new env); by eexists.
  - rewrite process_results_eq. by eexists.
  - destruct (running_ (mdns sys)) eqn:Hr.
    + destruct (terminate_running _ Hr)
        as (_ & _ & _ & _ & _ & _ & evs & He & _). by eexists.
    + unfold exec. rewrite terminate_idle by done.
      exists []. by rewrite app_nil_r.
  - unfold exec, complete.
    destruct (tasks (mdns sys) !! tid) as [[t [|]]|]; simpl;
      first [by eexists | exists []; by rewrite app_nil_r].
  - destruct event.
    + destruct (ec_failed (from_string (avahi_address_snprint address)))
        eqn:Hec.
      * rewrite (resolve_found_ineligible _ _ _ _ _ _ _ _ _ _ _ Hec).
        by eexists.
      * rewrite (resolve_found_eligible _ _ _ _ _ _ _ _ _ _ _ Hec).
        by eexists.
    + rewrite resolve_failure. by eexists.
  - rewrite browse_callback_mdns.
    destruct event; first [by eexists | exists []; by rewrite app_nil_r].
  - rewrite client_callback_mdns.
    destruct state; exists []; by rewrite app_nil_r.
Qed.

Lemma omap_core_event evs :
  omap core_event (map (Core (RtspSource := RtspSource)) evs) = evs.
Proof. induction evs as [|e evs IH]; simpl; [done|]. by f_equal. Qed.

(** The [Core] entries of the history are the client's trace. *)
Lemma history_holds_trace ops :
  omap core_event (actions (run' ops)) = trace (mdns (run' ops)).
Proof.
  induction ops as [|op ops IH] using rev_ind; [done|].
  rewrite run_snoc. set (sys := run' ops) in *.
  destruct (trace_extends op sys) as [evs He].
  destruct op; simpl in *;
    try (unfold core in *;
         match goal with |- context [(let (_, _) := ?m in _).2] =>
           destruct m as [a s'] end;
         simpl in *; rewrite He, drop_app_length, omap_app, omap_core_event, IH;
         done).
  - destruct event, resolver_new; simpl; rewrite ?omap_app, IH; simpl;
      by rewrite ?app_nil_r.
  - destruct state, browser_new, sys as [m acts]; simpl in *;
      destruct (sb_ m); simpl; rewrite ?omap_app, ?IH; simpl;
      by rewrite ?app_nil_r.
Qed.

(** ** Host calls and resolver frees, counted against the events *)

Lemma count_ops_snoc (p : Op AvahiAddress → bool) ops op :
  count_ops p (ops ++ [op]) = count_ops p ops + (if p op then 1 else 0).
Proof.
  unfold count_ops. rewrite List.filter_app, length_app. simpl.
  by destruct (p op).
Qed.

Lemma count_terminate (p : Event RtspSource → bool) s :
  (∀ e, is_drain_event e = true → p e = false) →
  (∀ b, p (EvRunning b) = false) → (∀ sev msg, p (EvLog sev msg) = false) →
  (∀ o, p (EvPollStop o) = false) →
  count p (trace (exec (terminate describe true) s)) = count p (trace s).
Proof.
  intros Hd Hr Hl Hs. destruct (running_ s) eqn:Hrun.
  - destruct (terminate_running s Hrun)
      as (_ & _ & _ & _ & _ & _ & evs & He & _ & Hdr).
    rewrite He. change (EvRunning false :: ?a :: evs ++ ?b)
      with ([EvRunning false; a] ++ evs ++ b).
    rewrite !count_app, (count_drain_zero p evs Hd Hdr).
    unfold count. simpl. rewrite Hr, Hl, Hs. simpl. lia.
  - unfold exec. by rewrite terminate_idle.
Qed.

Lemma count_init (p : Event RtspSource → bool) env s :
  (∀ e, p e = true → is_remove_source e = true ∨ is_resolver_free e = true) →
  count p (trace (exec (init true env) s)) = count p (trace s).
Proof.
  intros Hp.
  assert (Hz : ∀ e, is_remove_source e = false → is_resolver_free e = false →
                    (if p e then 1 else 0) = 0).
  { intros e H1 H2. destruct (p e) eqn:He; [|done].
    destruct (Hp e He); congruence. }
  rewrite init_eq. destruct (running_ s); [done|].
  destruct (threaded_poll_new env), (client_new env), (poll_ s), (client_ s);
    simpl; rewrite count_app, ?count_cons, ?Hz by done;
    unfold count; simpl; lia.
Qed.

(** After any run, [on_remove_rtsp_source] has been called once for each
    removal reported to the browse handler and for nothing else, and a
    resolver has been freed once for each call of the resolve handler. *)
Theorem reachable_removals_and_frees_counted ops :
  count is_remove_source (trace (mdns (run' ops)))
  = count_ops is_remove_op ops ∧
  count is_resolver_free (trace (mdns (run' ops)))
  = count_ops is_resolve_op ops.
Proof.
  induction ops as [|op ops [IH1 IH2]] using rev_ind; [done|].
  rewrite run_snoc, !count_ops_snoc. set (sys := run' ops) in *.
  rewrite <- IH1, <- IH2. clear IH1 IH2.
  destruct op; simpl; rewrite ?mdns_core.
  - rewrite !count_init by (intros e He; by eauto). lia.
  - rewrite process_results_eq. simpl.
    rewrite !count_app, !count_gets_zero by done. lia.
  - rewrite !count_terminate by (try done; by intros []). lia.
  - unfold exec, complete.
    destruct (tasks (mdns sys) !! tid) as [[t [|]]|]; simpl; try lia.
    rewrite !count_app. unfold task_body.
    destruct (describe _ _ _) as [[|] src]; unfold count; simpl; lia.
  - destruct event.
    + destruct (ec_failed (from_string (avahi_address_snprint address)))
        eqn:Hec.
      * rewrite (resolve_found_ineligible _ _ _ _ _ _ _ _ _ _ _ Hec).
        simpl. rewrite !count_app. unfold count. simpl. lia.
      * rewrite (resolve_found_eligible _ _ _ _ _ _ _ _ _ _ _ Hec).
        simpl. rewrite !count_app. unfold count. simpl. lia.
    + rewrite resolve_failure. simpl. rewrite !count_app.
      unfold count. simpl. lia.
  - rewrite browse_callback_mdns.
    destruct event; simpl; rewrite ?count_app; unfold count; simpl; lia.
  - rewrite client_callback_mdns. destruct state; simpl; lia.
Qed.

End Properties.

(** * The concrete instance at work *)

Lemma dotted_quad_rejects_colon s : ∀ cur dots,
  has_char is_colon s = true → dotted_quad s cur dots = false.
Proof.
  induction s as [|c s IH]; intros cur dots; simpl; [done|].
  intros H. apply orb_true_iff in H as [Hc|Hs].
  - assert (Hd : is_digit c = false).
    { unfold is_colon in Hc. apply Nat.eqb_eq in Hc.
      unfold is_digit. rewrite Hc. done. }
    assert (Hp : is_dot c = false).
    { unfold is_colon in Hc. apply Nat.eqb_eq in Hc.
      unfold is_dot. rewrite Hc. done. }
    by rewrite Hd, Hp.
  - destruct (is_digit c).
    + destruct cur as [v|]; [|by apply IH].
      destruct (v =? 0)%nat; [done|].
      destruct (255 <? _)%nat; [done|]. by apply IH.
    + destruct (is_dot c); [|done].
      destruct cur; [|done]. destruct (dots <? 3)%nat; [|done]. by apply IH.
Qed.

(** Every text with a colon, as all IPv6 addresses have, is refused by
    the IPv4 parser and so classified Ineligible. *)
Lemma ipv6_text_ineligible s :
  has_char is_colon s = true → classify address_v4_from_string s = Ineligible.
Proof.
  intros H. unfold classify, address_v4_from_string.
  by rewrite (dotted_quad_rejects_colon s None 0 H).
Qed.

Example v4_accepts : address_v4_from_string "192.168.1.10" = 0%Z.
Proof. reflexivity. Qed.

Example v4_rejects_v6 : address_v4_from_string "fe80::1" = EINVAL.
Proof. reflexivity. Qed.

Example v4_rejects_mapped : address_v4_from_string "::ffff:10.0.0.1" = EINVAL.
Proof. reflexivity. Qed.

Example v4_rejects_range : address_v4_from_string "256.1.1.1" = EINVAL.
Proof. reflexivity. Qed.

Example v4_rejects_short : address_v4_from_string "10.0.1" = EINVAL.
Proof. reflexivity. Qed.

Example st_pending_list :
  sources_res_ st_pending = [Future (Some 0); Future (Some 1)] ∧
  snd <$> tasks st_pending = [Completed; InFlight].
Proof. by vm_compute. Qed.

Example cam1_scenario :
  List.filter is_callback (trace st_pending)
  = [EvNewSource "cam1" "local" "sdp of /by-name/cam1"].
Proof. by vm_compute. Qed.

Example reap_pending :
  sources_res_ (exec (process_results describe_lab true) st_pending)
  = [Future (Some 1)].
Proof. by vm_compute. Qed.

(** * The theorems at concrete inputs *)

Lemma init_idempotent_witness :
  running_ st_running = true ∧
  init true env_no_client st_running = (true, st_running) ∧
  init true env_ok (exec (init true env_no_client) st_running)
  = init true env_no_client st_running.
Proof.
  split; [reflexivity|].
  apply (init_idempotent true env_no_client env_ok st_running). reflexivity.
Defined.

Lemma terminate_not_running_noop_witness :
  running_ (MDNSClient_new (RtspSource := string)) = false ∧
  terminate describe_lab true MDNSClient_new = (true, MDNSClient_new).
Proof.
  split; [reflexivity|].
  apply (terminate_not_running_noop describe_lab true MDNSClient_new).
  reflexivity.
Defined.

Lemma resolve_callback_classifies_witness :
  classify address_v4_from_string "fe80::1" = Ineligible ∧
  sources_res_ (exec (resolve_lab 9 "cam3" "fe80::1") st_one)
  = sources_res_ st_one ∧
  classify address_v4_from_string "192.168.1.10" = Eligible.
Proof.
  pose proof (proj1 (resolve_callback_classifies address_v4_from_string id
                       9 2 0 "cam3" "_rtsp._tcp" "local" "cam3.local"
                       "fe80::1" 554 0 st_one) eq_refl) as (H1 & H2 & _).
  pose proof (proj2 (resolve_callback_classifies address_v4_from_string id
                       7 2 0 "cam1" "_rtsp._tcp" "local" "cam1.local"
                       "192.168.1.10" 554 0 st_running) eq_refl) as (H3 & _).
  exact (conj H1 (conj H2 H3)).
Defined.

Lemma describe_task_request_and_callback_witness :
  ec_failed (address_v4_from_string "192.168.1.10") = false ∧
  sources_res_ st_one = [Future (Some 0)] ∧
  tasks st_one !! 0
  = Some ({| name_ := "cam1"; domain_ := "local"; addr_ := "192.168.1.10";
             port_ := "554" |}, InFlight).
Proof.
  split; [reflexivity|].
  pose proof (describe_task_request_and_callback describe_lab
                address_v4_from_string id 7 2 0 "cam1" "_rtsp._tcp" "local"
                "cam1.local" "192.168.1.10" 554 0 st_running eq_refl)
    as (H1 & H2 & _).
  exact (conj H1 H2).
Defined.

Lemma terminate_drain_waits_for_all_witness :
  running_ st_pending = true ∧
  tasks (exec (terminate describe_lab true) st_pending) !! 1
  = Some ({| name_ := "cam2"; domain_ := "local"; addr_ := "192.168.1.11";
             port_ := "554" |}, Completed).
Proof.
  split; [reflexivity|].
  apply (proj1 (terminate_drain_waits_for_all describe_lab st_pending eq_refl)
           1 _ InFlight).
  - reflexivity.
  - right. apply list_elem_of_In. simpl. tauto.
Defined.

Lemma terminate_empties_pending_witness :
  running_ st_pending = true ∧
  sources_res_ (exec (terminate describe_lab true) st_pending) = [] ∧
  running_ (exec (terminate describe_lab true) st_pending) = false.
Proof.
  split; [reflexivity|].
  pose proof (terminate_empties_pending describe_lab st_pending eq_refl)
    as (_ & H1 & H2 & _).
  exact (conj H1 H2).
Defined.

Lemma terminate_order_witness :
  running_ st_pending = true ∧
  ∃ evs,
    trace (exec (terminate describe_lab true) st_pending)
    = trace st_pending ++ EvRunning false :: EvLog fatal (WaitingFor 2)
        :: evs ++ [EvPollStop (Some 1)] ∧
    omap wait_tid evs = [0; 1].
Proof.
  split; [reflexivity|].
  destruct (terminate_order describe_lab st_pending eq_refl)
    as (evs & H1 & H2 & _).
  exists evs. exact (conj H1 H2).
Defined.

Lemma init_failure_keeps_poll_witness :
  running_ (MDNSClient_new (RtspSource := string)) = false ∧
  client_new env_no_client = None ∧
  value (init true env_no_client) (MDNSClient_new (RtspSource := string))
  = false ∧
  running_ (exec (init true env_no_client)
              (MDNSClient_new (RtspSource := string))) = false.
Proof.
  split; [reflexivity|]. split; [reflexivity|].
  pose proof (init_failure_keeps_poll env_no_client
                (MDNSClient_new (RtspSource := string))
                eq_refl (or_intror eq_refl)) as (H1 & H2 & _).
  exact (conj H1 H2).
Defined.

(** ** Where the specification departs from the code *)

(** Counterexample to C1 as written (the drain has retrieved the result
    of each task once): with one task in flight, [terminate] waits for it
    and it completes, but no [get] is ever made on it. *)
Lemma terminate_drain_retrieves_nothing :
  sources_res_ st_one = [Future (Some 0)] ∧
  snd <$> tasks (exec (terminate describe_lab true) st_one) = [Completed] ∧
  count (is_get_of 0) (trace (exec (terminate describe_lab true) st_one)) ≠ 1.
Proof. by vm_compute. Qed.

(** Counterexample to C6 as written (the event loop is stopped and its
    resource released): after [terminate], [poll_] still holds the poll
    object and no deleter has run. *)
Lemma terminate_keeps_poll :
  poll_ st_running = Some 1 ∧
  ¬ (poll_ (exec (terminate describe_lab true) st_running) = None ∨
     count is_poll_free
       (trace (exec (terminate describe_lab true) st_running)) ≠ 0).
Proof. vm_compute. split; [done|]. intros [H|H]; [done|]. by apply H. Qed.

(** Counterexample to C7 as written (what was acquired is released
    before [init] returns): when the client cannot be made, the poll
    object made just before is still held and no deleter has run. *)
Lemma init_failure_holds_poll :
  value (init true env_no_client) (MDNSClient_new (RtspSource := string))
  = false ∧
  ¬ (poll_ (exec (init true env_no_client)
              (MDNSClient_new (RtspSource := string))) = None ∨
     count is_poll_free
       (trace (exec (init true env_no_client)
                 (MDNSClient_new (RtspSource := string)))) ≠ 0).
Proof. vm_compute. split; [done|]. intros [H|H]; [done|]. by apply H. Qed.


Lemma terminate_leaves_no_task_in_flight_witness :
  running_ (mdns (run_lab ops_lab)) = true ∧
  sources_res_ (mdns (run_lab (ops_lab ++ [OpTerminate]))) = [].
Proof.
  split; [reflexivity|].
  exact (proj2 (terminate_leaves_no_task_in_flight describe_lab
                  address_v4_from_string id ops_lab eq_refl)).
Defined.

Lemma reachable_running_holds_handles_witness :
  running_ (mdns (run_lab ops_lab)) = true ∧
  is_Some (poll_ (mdns (run_lab ops_lab))).
Proof.
  split; [reflexivity|].
  exact (proj1 (reachable_running_holds_handles describe_lab
                  address_v4_from_string id ops_lab eq_refl)).
Defined.
